(** * Auto-shop booking: the reservation core

    A shallow embedding of the booking store declared by the SQL migration
    (tables [services], [staff], [timeslots], [bookings] with their keys and
    constraints, and the timeslot generation block), of the client data
    layer [src/lib/api.ts] ([createBooking], [getBooking], [cancelBooking],
    [getAvailableSlots]), of the serverless [create-booking] handler with
    its [BookingSchema] validation, and of the submission of [BookingForm]
    with its [bookingFormSchema].

    Conventions.
    - SQL [BIGINT]/[INT] values and the JSON and TypeScript numbers (all of
      them identifiers here) are [Z]; [TEXT] values are [string], whose
      length is the JavaScript length on ASCII text; a [UUID] is kept as the
      text the database prints for it and compared by the value the
      database reads from a text ([uuid_in]); a nullable column or an
      optional property is an [option].
    - A [DATE] is a day number (days since 1970-01-01) and a [TIMESTAMPTZ] is
      a number of minutes since 1970-01-01 00:00 in the session time zone.
    - The [created_at] columns (a [now()] default that no modelled statement
      reads) are left out of the rows.
    - Row-level security is part of the model where a statement of the
      client needs a policy the migration does not give: the client works
      as role [anon], [bookings] has policies for INSERT and SELECT only, so
      an UPDATE of the client finds no row it may rewrite.
    - What depends on the database server's version is an argument
      ([server]): how PL/pgSQL parses an assignment.
    - What the environment decides is an explicit argument: whether a storage
      round trip reaches the database ([link]), what [gen_random_uuid()]
      draws, what [fetch] resolves to, what [Math.random()] returns. *)

From Stdlib Require Import ZArith List Ascii String Bool Lia Permutation.
From Stdlib Require Import DecimalString DecimalPos DecimalZ.
Import ListNotations.

Local Open Scope string_scope.
Local Open Scope list_scope.
Local Open Scope Z_scope.

(** ** Rows *)

(** [status TEXT CHECK (status IN ('pending','confirmed','cancelled','completed'))] *)
Inductive booking_status : Type :=
  | pending
  | confirmed
  | cancelled
  | completed.

(** [payment_status TEXT CHECK (payment_status IN ('unpaid','paid','refunded'))] *)
Inductive payment_status : Type :=
  | unpaid
  | paid
  | refunded.

Definition booking_status_eqb (a b : booking_status) : bool :=
  match a, b with
  | pending, pending | confirmed, confirmed
  | cancelled, cancelled | completed, completed => true
  | _, _ => false
  end.

Module Service.
Record t : Type := mk {
  id : Z;
  name : string;
  price_cents : Z;
  duration_min : Z;
  description : string;
  is_active : bool
}.
End Service.

Module Staff.
Record t : Type := mk {
  id : Z;
  name : string;
  bio : string;
  is_active : bool
}.
End Staff.

Module TimeSlot.
Record t : Type := mk {
  id : Z;
  staff_id : Z;
  start_ts : Z;
  end_ts : Z;
  is_blocked : bool
}.

(** The columns of [UNIQUE(staff_id, start_ts)]. *)
Definition key (r : t) : Z * Z := (staff_id r, start_ts r).

(** A row without its generated identifier. *)
Definition content (r : t) : Z * Z * Z * bool :=
  (staff_id r, start_ts r, end_ts r, is_blocked r).
End TimeSlot.

Module Booking.
Record t : Type := mk {
  id : Z;
  service_id : Z;
  staff_id : Z;
  timeslot_id : Z;
  customer_name : string;
  customer_email : string;
  customer_phone : option string;
  notes : option string;
  status : booking_status;
  payment_status : payment_status;
  cancel_token : string;
  stripe_session_id : option string;
  total_cents : option Z
}.

Definition set_status (st : booking_status) (b : t) : t :=
  mk (id b) (service_id b) (staff_id b) (timeslot_id b) (customer_name b)
     (customer_email b) (customer_phone b) (notes b) st (payment_status b)
     (cancel_token b) (stripe_session_id b) (total_cents b).
End Booking.

(** ** The database *)

(** The four tables and the two identity sequences the modelled statements
    draw from ([GENERATED ALWAYS AS IDENTITY]: the next value to hand out). *)
Record db : Type := mkdb {
  services : list Service.t;
  staff : list Staff.t;
  timeslots : list TimeSlot.t;
  bookings : list Booking.t;
  timeslots_id_seq : Z;
  bookings_id_seq : Z
}.

(** The error object of the storage client: [error.code], [error.message]. *)
Module PgError.
Record t : Type := mk { code : string; message : string }.
End PgError.

Definition unique_violation : PgError.t :=
  PgError.mk "23505" "duplicate key value violates unique constraint".

Definition foreign_key_violation : PgError.t :=
  PgError.mk "23503" "insert or update violates foreign key constraint".

(** The columns [createBooking] supplies to [insert]. *)
Record booking_insert : Type := mk_insert {
  ins_service_id : Z;
  ins_staff_id : Z;
  ins_timeslot_id : Z;
  ins_customer_name : string;
  ins_customer_email : string;
  ins_customer_phone : option string;
  ins_notes : option string;
  ins_status : booking_status
}.

(** The requests the client layer sends to the storage layer. *)
Inductive db_call : Type :=
  | InsertBooking (r : booking_insert)
  | SelectBooking (bookingId : Z) (cancelToken : string)
  | UpdateBookingStatus (bookingId : Z) (cancelToken : string) (st : booking_status)
  | SelectTimeslots.

(** A run of a client function: what it gives back, the database afterwards
    and the storage requests it issued, in order. *)
Record run (A : Type) : Type := mkrun {
  value : A;
  final : db;
  calls : list db_call
}.
Arguments mkrun {A} _ _ _.
Arguments value {A} _.
Arguments final {A} _.
Arguments calls {A} _.

Definition has_service (d : db) (i : Z) : bool :=
  existsb (fun s => Service.id s =? i) (services d).
Definition has_staff (d : db) (i : Z) : bool :=
  existsb (fun s => Staff.id s =? i) (staff d).
Definition has_timeslot (d : db) (i : Z) : bool :=
  existsb (fun s => TimeSlot.id s =? i) (timeslots d).

Definition with_bookings (d : db) (bs : list Booking.t) (next : Z) : db :=
  mkdb (services d) (staff d) (timeslots d) bs (timeslots_id_seq d) next.

(** The row an [INSERT INTO bookings] builds: the identity column takes the
    sequence value, [payment_status] its default ['unpaid'], [cancel_token]
    the drawn [gen_random_uuid()], the remaining columns are NULL. *)
Definition new_booking (new_id : Z) (uuid : string) (r : booking_insert) : Booking.t :=
  Booking.mk new_id (ins_service_id r) (ins_staff_id r) (ins_timeslot_id r)
    (ins_customer_name r) (ins_customer_email r) (ins_customer_phone r)
    (ins_notes r) (ins_status r) unpaid uuid None None.

(** [INSERT INTO bookings ... RETURNING ...] as one atomic statement. The
    identity value is drawn first (and stays consumed when the statement
    fails); the unique indexes ([PRIMARY KEY (id)], [UNIQUE(timeslot_id)])
    are checked when the row is entered, the foreign keys at the end of the
    statement. A rejected row leaves the table as it was. *)
Definition insert_booking (uuid : string) (r : booking_insert) (d : db)
  : (PgError.t + Booking.t) * db :=
  let new_id := bookings_id_seq d in
  let b := new_booking new_id uuid r in
  if existsb (fun x => Booking.id x =? new_id) (bookings d)
     || existsb (fun x => Booking.timeslot_id x =? ins_timeslot_id r) (bookings d)
  then (inl unique_violation, with_bookings d (bookings d) (new_id + 1))
  else if has_service d (ins_service_id r) && has_staff d (ins_staff_id r)
          && has_timeslot d (ins_timeslot_id r)
  then (inr b, with_bookings d (bookings d ++ [b]) (new_id + 1))
  else (inl foreign_key_violation, with_bookings d (bookings d) (new_id + 1)).

(** *** Values of the column types *)

(** A [BIGINT]. *)
Definition is_bigint (n : Z) : bool :=
  (- 2 ^ 63 <=? n) && (n <=? 2 ^ 63 - 1).

(** The value of a hexadecimal digit, upper or lower case, from its
    character code: [0-9], [a-f], [A-F]. *)
Definition hex_value (c : ascii) : option Z :=
  let n := Z.of_N (N_of_ascii c) in
  if (48 <=? n) && (n <=? 57) then Some (n - 48)
  else if (97 <=? n) && (n <=? 102) then Some (n - 87)
  else if (65 <=? n) && (n <=? 70) then Some (n - 55)
  else None.

(** The sixteen bytes of a UUID text, read the way the database reads
    them: two hexadecimal digits per byte, and a hyphen allowed after every
    second byte but the last. [i] is the index of the byte, [acc] the value
    read so far; the result comes with the text left over. *)
Fixpoint uuid_bytes (n : nat) (i : Z) (src : string) (acc : Z) : option (Z * string) :=
  match n with
  | O => Some (acc, src)
  | S n' =>
      match src with
      | String a (String b rest) =>
          match hex_value a, hex_value b with
          | Some x, Some y =>
              let rest' :=
                match rest with
                | String "-" r => if Z.odd i && (i <? 15) then r else rest
                | _ => rest
                end in
              uuid_bytes n' (i + 1) rest' (acc * 256 + 16 * x + y)
          | _, _ => None
          end
      | _ => None
      end
  end.

(** The input function of type [UUID]: the 128-bit value of a text, or
    nothing when the text is not the syntax of a UUID. The text may be
    wrapped in braces; nothing may follow it. *)
Definition uuid_in (s : string) : option Z :=
  match s with
  | String "{" src =>
      match uuid_bytes 16 0 src 0 with
      | Some (v, String "}" EmptyString) => Some v
      | _ => None
      end
  | _ =>
      match uuid_bytes 16 0 s 0 with
      | Some (v, EmptyString) => Some v
      | _ => None
      end
  end.

(** Two texts read as the same UUID. *)
Definition same_uuid (s s' : string) : bool :=
  match uuid_in s, uuid_in s' with
  | Some v, Some v' => v =? v'
  | _, _ => false
  end.

(** [invalid input syntax for type uuid] and [value out of range]; the
    message texts are abbreviated, [getBooking] and [cancelBooking] look at
    neither code nor message. *)
Definition invalid_uuid : PgError.t :=
  PgError.mk "22P02" "invalid input syntax for type uuid".
Definition bigint_out_of_range : PgError.t :=
  PgError.mk "22003" "value is out of range for type bigint".

(** The filters [.eq("id", bookingId).eq("cancel_token", cancelToken)] are
    compared with a [BIGINT] and a [UUID] column: a number that is no
    [BIGINT] or a text that is no UUID makes the statement fail before any
    row is looked at. *)
Definition filter_error (bookingId : Z) (cancelToken : string) : option PgError.t :=
  if negb (is_bigint bookingId) then Some bigint_out_of_range
  else match uuid_in cancelToken with
       | Some _ => None
       | None => Some invalid_uuid
       end.

(** The row filter [.eq("id", bookingId).eq("cancel_token", cancelToken)]:
    the token is compared as a UUID value. *)
Definition matches (bookingId : Z) (cancelToken : string) (b : Booking.t) : bool :=
  (Booking.id b =? bookingId) && same_uuid (Booking.cancel_token b) cancelToken.

(** *** Roles and row-level security *)

(** The roles a statement can run as: the client built with the anonymous
    key, and the service role, which is not subject to the policies. *)
Inductive role : Type :=
  | anon
  | service_role.

(** [createClient(supabaseUrl, supabaseAnonKey)]: the one client of the data
    layer. *)
Definition client_role : role := anon.

(** [ALTER TABLE bookings ENABLE ROW LEVEL SECURITY] with the two policies
    ["Anyone can create bookings"] (INSERT) and ["Public can read booking
    with cancel token"] (SELECT, [USING (true)]): there is no policy for
    UPDATE, so role [anon] may rewrite no row. *)
Definition may_update_booking (r : role) (b : Booking.t) : bool :=
  match r with
  | anon => false
  | service_role => true
  end.

(** [SELECT * FROM bookings WHERE id = .. AND cancel_token = ..]. *)
Definition select_booking (bookingId : Z) (cancelToken : string) (d : db)
  : list Booking.t :=
  filter (matches bookingId cancelToken) (bookings d).

(** [UPDATE bookings SET status = st WHERE id = .. AND cancel_token = ..]
    run as role [r], once its filters have been read: every matching row
    that the role may update is rewritten; a statement that rewrites no row
    is not an error. *)
Definition update_booking_status (r : role) (bookingId : Z) (cancelToken : string)
    (st : booking_status) (d : db) : db :=
  with_bookings d
    (map (fun b => if may_update_booking r b && matches bookingId cancelToken b
                   then Booking.set_status st b else b) (bookings d))
    (bookings_id_seq d).

(** ** The client data layer ([src/lib/api.ts]) *)

Module ApiError.
Record t : Type := mk { name : string; message : string; status : Z }.

(** [new ApiError(message)]: the constructor's [status] defaults to 400. *)
Definition new (msg : string) : t := mk "ApiError" msg 400.
Definition new_with (msg : string) (st : Z) : t := mk "ApiError" msg st.
End ApiError.

(** A function that either returns or throws. *)
Inductive completion (A : Type) : Type :=
  | Returned (a : A)
  | Thrown (e : ApiError.t).
Arguments Returned {A} _.
Arguments Thrown {A} _.

(** The argument of [createBooking]. *)
Record booking_data : Type := mk_data {
  serviceId : Z;
  staffId : Z;
  timeslotId : Z;
  customerName : string;
  customerEmail : string;
  customerPhone : option string;
  notes : option string
}.

(** A validation issue of the schema library: which check failed on which
    property ([path] is empty for the request object itself). *)
Inductive issue_code : Type :=
  | invalid_type
  | too_small
  | too_big
  | invalid_email.

Record issue : Type := mk_issue { code : issue_code; path : list string }.

(** The JSON object a handler response carries; an absent property is [None]. *)
Record json_response : Type := mk_json {
  j_bookingId : option Z;
  j_cancelToken : option string;
  j_message : option string;
  j_error : option string;
  j_details : option (list issue)
}.

Inductive response_body : Type :=
  | EmptyBody
  | JsonBody (j : json_response).

Record http_response : Type := mk_response {
  statusCode : Z;
  body : response_body
}.

(** What [await fetch(...)] gives: the promise rejects (function not
    reachable) or resolves to a response. *)
Inductive fetch_result : Type :=
  | FetchRejected
  | FetchResolved (r : http_response).

(** [response.ok] *)
Definition response_ok (r : http_response) : bool :=
  (200 <=? statusCode r) && (statusCode r <=? 299).

(** What [createBooking] resolves to; a property read off a JSON object
    that lacks it is [undefined], here [None]. *)
Record created : Type := mk_created {
  bookingId : option Z;
  cancelToken : option string
}.

Definition slot_taken_message : string :=
  "This time slot has already been booked. Please select another time.".

Definition to_insert (bookingData : booking_data) : booking_insert :=
  mk_insert (serviceId bookingData) (staffId bookingData) (timeslotId bookingData)
    (customerName bookingData) (customerEmail bookingData)
    (customerPhone bookingData) (notes bookingData) confirmed.

(** The [if (error)] block of [createBooking]: a unique violation (code
    23505) is rethrown with the fixed message, any other error with the
    storage layer's own message; the [status] argument is never passed. *)
Definition insert_failure (e : PgError.t) : ApiError.t :=
  if String.eqb (PgError.code e) "23505"
  then ApiError.new slot_taken_message
  else ApiError.new (PgError.message e).

(** The [catch] branch of [createBooking]: one [insert(...).select(...).single()]
    round trip. [link = Some e]: the request fails with [e] before it reaches
    the database. *)
Definition createBooking_fallback (link : option PgError.t) (uuid : string)
    (d : db) (bookingData : booking_data) : run (completion created) :=
  let r := to_insert bookingData in
  match link with
  | Some e => mkrun (Thrown (insert_failure e)) d [InsertBooking r]
  | None =>
      match insert_booking uuid r d with
      | (inl e, d') => mkrun (Thrown (insert_failure e)) d' [InsertBooking r]
      | (inr b, d') =>
          mkrun (Returned (mk_created (Some (Booking.id b))
                                      (Some (Booking.cancel_token b))))
                d' [InsertBooking r]
      end
  end.

(** [createBooking]: the [try] block returns what the serverless function
    answered when the response is [ok] and its body parses; a rejected
    fetch, a non-[ok] response or an unparsable body throws into the [catch]
    branch. *)
Definition createBooking (f : fetch_result) (link : option PgError.t)
    (uuid : string) (d : db) (bookingData : booking_data)
  : run (completion created) :=
  match f with
  | FetchResolved r =>
      if response_ok r then
        match body r with
        | JsonBody result =>
            mkrun (Returned (mk_created (j_bookingId result) (j_cancelToken result)))
                  d []
        | EmptyBody => createBooking_fallback link uuid d bookingData
        end
      else createBooking_fallback link uuid d bookingData
  | FetchRejected => createBooking_fallback link uuid d bookingData
  end.

(** [getBooking]: [select("*").eq(..).eq(..).single()]; any error gives
    [null]: a failed round trip, filters the database cannot read, or a
    result that is not exactly one row. *)
Definition getBooking (link : option PgError.t) (d : db)
    (bookingId : Z) (cancelToken : string) : run (option Booking.t) :=
  let c := [SelectBooking bookingId cancelToken] in
  match link with
  | Some _ => mkrun None d c
  | None =>
      match filter_error bookingId cancelToken with
      | Some _ => mkrun None d c
      | None =>
          match select_booking bookingId cancelToken d with
          | [b] => mkrun (Some b) d c
          | _ => mkrun None d c
          end
      end
  end.

(** [cancelBooking]: [update({status: "cancelled"}).eq(..).eq(..)] through
    the anonymous client, then [return !error]. *)
Definition cancelBooking (link : option PgError.t) (d : db)
    (bookingId : Z) (cancelToken : string) : run bool :=
  let c := [UpdateBookingStatus bookingId cancelToken cancelled] in
  match link with
  | Some _ => mkrun false d c
  | None =>
      match filter_error bookingId cancelToken with
      | Some _ => mkrun false d c
      | None =>
          mkrun true
            (update_booking_status client_role bookingId cancelToken cancelled d) c
      end
  end.

(** The rows [slot.bookings] embeds in a timeslot: [bookings!left(id, status)]. *)
Definition embedded_bookings (d : db) (slot : TimeSlot.t) : list Booking.t :=
  filter (fun b => Booking.timeslot_id b =? TimeSlot.id slot) (bookings d).

(** The callback of [.filter] in [getAvailableSlots]: no embedded booking,
    or every embedded booking cancelled. *)
Definition not_booked (bs : list Booking.t) : bool :=
  (Nat.eqb (List.length bs) 0)
  || forallb (fun b => booking_status_eqb (Booking.status b) cancelled) bs.

(** [getAvailableSlots]: unblocked timeslots of the staff member (when a
    truthy [staffId] is given) that start inside [[from_ts, to_ts]], the two
    bounds the function computes from [date] or from the clock, without the
    booked ones. The [ORDER BY start_ts] of the query is not modelled: rows
    come in table order. *)
Definition getAvailableSlots (link : option PgError.t) (d : db)
    (staffId : option Z) (from_ts to_ts : Z) : run (completion (list TimeSlot.t)) :=
  match link with
  | Some e => mkrun (Thrown (ApiError.new (PgError.message e))) d [SelectTimeslots]
  | None =>
      let data :=
        filter (fun slot =>
                  negb (TimeSlot.is_blocked slot)
                  && match staffId with
                     | Some i => if i =? 0 then true else TimeSlot.staff_id slot =? i
                     | None => true
                     end
                  && (from_ts <=? TimeSlot.start_ts slot)
                  && (TimeSlot.start_ts slot <=? to_ts))
               (timeslots d) in
      mkrun (Returned (filter (fun slot => not_booked (embedded_bookings d slot)) data))
            d [SelectTimeslots]
  end.

(** ** Validation, the serverless handler ([create-booking]) and the form *)

(** A JSON value as the schema sees it. *)
Inductive jval : Type :=
  | JUndefined
  | JNumber (n : Z)
  | JString (s : string)
  | JOther.

(** The properties of the request object that [BookingSchema] reads. *)
Record json_request : Type := mk_request {
  q_serviceId : jval;
  q_staffId : jval;
  q_timeslotId : jval;
  q_customerName : jval;
  q_customerEmail : jval;
  q_customerPhone : jval;
  q_notes : jval
}.

(** [event.body]: missing or empty, not JSON, JSON but not an object, or an
    object. *)
Inductive request_body : Type :=
  | NoBody
  | MalformedBody
  | NonObjectBody
  | ObjectBody (o : json_request).

Record event : Type := mk_event {
  httpMethod : string;
  event_body : request_body
}.

Definition empty_object : json_request :=
  mk_request JUndefined JUndefined JUndefined JUndefined JUndefined JUndefined JUndefined.

(** [JSON.parse(JSON.stringify(bookingData))]: an [undefined] property is
    dropped by [stringify]. *)
Definition optional_string (o : option string) : jval :=
  match o with
  | Some s => JString s
  | None => JUndefined
  end.

Definition to_json (bookingData : booking_data) : json_request :=
  mk_request (JNumber (serviceId bookingData)) (JNumber (staffId bookingData))
    (JNumber (timeslotId bookingData)) (JString (customerName bookingData))
    (JString (customerEmail bookingData))
    (optional_string (customerPhone bookingData))
    (optional_string (notes bookingData)).

Section Validation.

(** The address test behind [z.string().email()] belongs to the schema
    library; the handler and the form are modelled for any such test. *)
Variable is_email : string -> bool.

(** [z.number().positive()] *)
Definition check_positive (field : string) (v : jval) : list issue :=
  match v with
  | JNumber n => if 0 <? n then [] else [mk_issue too_small [field]]
  | _ => [mk_issue invalid_type [field]]
  end.

(** [z.string().min(2).max(100)] *)
Definition check_name (field : string) (v : jval) : list issue :=
  match v with
  | JString s =>
      (if Nat.ltb (String.length s) 2 then [mk_issue too_small [field]] else [])
      ++ (if Nat.ltb 100 (String.length s) then [mk_issue too_big [field]] else [])
  | _ => [mk_issue invalid_type [field]]
  end.

(** [z.string().email()] *)
Definition check_email (field : string) (v : jval) : list issue :=
  match v with
  | JString s => if is_email s then [] else [mk_issue invalid_email [field]]
  | _ => [mk_issue invalid_type [field]]
  end.

(** [z.string().optional()] *)
Definition check_optional_string (field : string) (v : jval) : list issue :=
  match v with
  | JUndefined | JString _ => []
  | _ => [mk_issue invalid_type [field]]
  end.

(** [z.string().max(500).optional()] *)
Definition check_notes (field : string) (v : jval) : list issue :=
  match v with
  | JUndefined => []
  | JString s =>
      if Nat.ltb 500 (String.length s) then [mk_issue too_big [field]] else []
  | _ => [mk_issue invalid_type [field]]
  end.

(** The issues of [BookingSchema], property by property in schema order. *)
Definition schema_issues (o : json_request) : list issue :=
  check_positive "serviceId" (q_serviceId o)
  ++ check_positive "staffId" (q_staffId o)
  ++ check_positive "timeslotId" (q_timeslotId o)
  ++ check_name "customerName" (q_customerName o)
  ++ check_email "customerEmail" (q_customerEmail o)
  ++ check_optional_string "customerPhone" (q_customerPhone o)
  ++ check_notes "notes" (q_notes o).

Definition as_number (v : jval) : Z :=
  match v with JNumber n => n | _ => 0 end.
Definition as_string (v : jval) : string :=
  match v with JString s => s | _ => "" end.
Definition as_optional (v : jval) : option string :=
  match v with JString s => Some s | _ => None end.

(** [BookingSchema.parse(body)]: the validated data, or the issues of the
    [ZodError] it throws. *)
Definition BookingSchema_parse (o : json_request) : list issue + booking_data :=
  match schema_issues o with
  | [] =>
      inr (mk_data (as_number (q_serviceId o)) (as_number (q_staffId o))
             (as_number (q_timeslotId o)) (as_string (q_customerName o))
             (as_string (q_customerEmail o)) (as_optional (q_customerPhone o))
             (as_optional (q_notes o)))
  | issues => inl issues
  end.

Definition json_error (msg : string) (details : option (list issue)) : response_body :=
  JsonBody (mk_json None None None (Some msg) details).

(** The 200 answer: the identifiers are the two mock values, nothing is
    read from or written to storage. *)
Definition mock_success (mockBookingId : Z) (mockCancelToken : string) : http_response :=
  mk_response 200
    (JsonBody (mk_json (Some mockBookingId) (Some mockCancelToken)
                       (Some "Booking created successfully") None None)).

(** [handler]: [mockBookingId] is [Math.floor(Math.random() * 10000)] and
    [random36] the digits [Math.random().toString(36).substr(2, 9)] yields.
    Sending the two e-mails sits in its own [try]/[catch] and does not
    change the answer; it is not modelled. *)
Definition handler (mockBookingId : Z) (random36 : string) (ev : event)
  : http_response :=
  if String.eqb (httpMethod ev) "OPTIONS" then mk_response 200 EmptyBody
  else if negb (String.eqb (httpMethod ev) "POST")
  then mk_response 405 (json_error "Method not allowed" None)
  else
    match event_body ev with
    | MalformedBody => mk_response 500 (json_error "Internal server error" None)
    | NonObjectBody =>
        mk_response 400 (json_error "Invalid data" (Some [mk_issue invalid_type []]))
    | NoBody | ObjectBody _ =>
        let o := match event_body ev with ObjectBody o => o | _ => empty_object end in
        match BookingSchema_parse o with
        | inl issues => mk_response 400 (json_error "Invalid data" (Some issues))
        | inr validatedData =>
            mock_success mockBookingId (String.append "cancel-" random36)
        end
    end.

(** What [fetch("/.netlify/functions/create-booking", {method: "POST", ...})]
    resolves to when the function is deployed. *)
Definition fetch_deployed (mockBookingId : Z) (random36 : string)
    (bookingData : booking_data) : fetch_result :=
  FetchResolved
    (handler mockBookingId random36 (mk_event "POST" (ObjectBody (to_json bookingData)))).

(** [z.string().min(2, ...)]: the form's rule for the name has no upper
    bound. *)
Definition check_form_name (field : string) (v : jval) : list issue :=
  match v with
  | JString s =>
      if Nat.ltb (String.length s) 2 then [mk_issue too_small [field]] else []
  | _ => [mk_issue invalid_type [field]]
  end.

(** The issues of [bookingFormSchema] ([src/lib/validation.ts]). *)
Definition form_issues (o : json_request) : list issue :=
  check_positive "serviceId" (q_serviceId o)
  ++ check_positive "staffId" (q_staffId o)
  ++ check_positive "timeslotId" (q_timeslotId o)
  ++ check_form_name "customerName" (q_customerName o)
  ++ check_email "customerEmail" (q_customerEmail o)
  ++ check_optional_string "customerPhone" (q_customerPhone o)
  ++ check_notes "notes" (q_notes o).

(** What a submission of [BookingForm] comes to: the resolver's field
    errors, or the outcome of [createBooking]. *)
Inductive submission : Type :=
  | FieldErrors (issues : list issue)
  | Submitted (c : completion created).

(** [handleSubmit(onSubmit)] of [BookingForm]: the resolver
    [zodResolver(bookingFormSchema)] runs first, and [onSubmit], which calls
    [createBooking] with the form's values, only when it reports no issue. *)
Definition BookingForm_submit (f : booking_data -> fetch_result)
    (link : option PgError.t) (uuid : string) (d : db) (data : booking_data)
  : run submission :=
  match form_issues (to_json data) with
  | [] =>
      let r := createBooking (f data) link uuid d data in
      mkrun (Submitted (value r)) (final r) (calls r)
  | issues => mkrun (FieldErrors issues) d []
  end.

End Validation.

(** ** The timeslot generator (the [DO] block of the migration) *)

Definition with_timeslots (d : db) (ts : list TimeSlot.t) (next : Z) : db :=
  mkdb (services d) (staff d) ts (bookings d) next (bookings_id_seq d).

Definition same_key (staff_id start_ts : Z) (t : TimeSlot.t) : bool :=
  (TimeSlot.staff_id t =? staff_id) && (TimeSlot.start_ts t =? start_ts).

(** [INSERT INTO timeslots (staff_id, start_ts, end_ts) VALUES (..)
     ON CONFLICT (staff_id, start_ts) DO NOTHING]: the identity value is
    drawn in any case; a row with the same (staff_id, start_ts) makes the
    statement do nothing; [is_blocked] takes its default. The conflict clause
    covers that one constraint only: a clash on the primary key or a missing
    staff row is raised, and ends the block. *)
Definition insert_timeslot (staff_id start_ts end_ts : Z) (d : db) : PgError.t + db :=
  let new_id := timeslots_id_seq d in
  if existsb (same_key staff_id start_ts) (timeslots d)
  then inr (with_timeslots d (timeslots d) (new_id + 1))
  else if existsb (fun t => TimeSlot.id t =? new_id) (timeslots d)
  then inl unique_violation
  else if has_staff d staff_id
  then inr (with_timeslots d
              (timeslots d ++ [TimeSlot.mk new_id staff_id start_ts end_ts false])
              (new_id + 1))
  else inl foreign_key_violation.

(** [EXTRACT(DOW FROM date)]: 0 is Sunday; day 0 was a Thursday. *)
Definition dow (date : Z) : Z := (date + 4) mod 7.

Definition minutes_per_day : Z := 1440.

(** [WHILE slot_time < limit LOOP ... slot_time := end_time; END LOOP], with
    [fuel] bounding the number of iterations. *)
Fixpoint slot_loop (fuel : nat) (staff_id slot_time limit : Z) (d : db)
  : PgError.t + db :=
  match fuel with
  | O => inr d
  | S fuel' =>
      if slot_time <? limit then
        let end_time := slot_time + 30 in
        match insert_timeslot staff_id slot_time end_time d with
        | inl e => inl e
        | inr d' => slot_loop fuel' staff_id end_time limit d'
        end
      else inr d
  end.

(** The [IF] statement inside the [FOR i] loop. The block declares a
    variable named [current_date], but inside an SQL expression that word
    is the keyword [CURRENT_DATE]: [EXTRACT(DOW FROM current_date)] and
    [current_date + INTERVAL '9 hours'] read the date of the run, [today],
    whatever was assigned to the variable. Nothing on Saturdays and Sundays,
    otherwise the slots from 9:00 up to 17:00 of [today]. The [WHILE] loop
    advances by 30 minutes, so [limit - slot_time] iterations always
    suffice. *)
Definition generate_day (staff_id today : Z) (d : db) : PgError.t + db :=
  if (dow today =? 0) || (dow today =? 6) then inr d
  else
    let slot_time := today * minutes_per_day + 9 * 60 in
    let limit := today * minutes_per_day + 17 * 60 in
    slot_loop (Z.to_nat (limit - slot_time)) staff_id slot_time limit d.

(** A [FOR] loop whose body may raise. *)
Fixpoint for_each {A : Type} (body : A -> db -> PgError.t + db) (l : list A) (d : db)
  : PgError.t + db :=
  match l with
  | [] => inr d
  | x :: l' =>
      match body x d with
      | inl e => inl e
      | inr d' => for_each body l' d'
      end
  end.

(** [SELECT id FROM staff WHERE is_active = true] *)
Definition active_staff (d : db) : list Z :=
  map Staff.id (filter Staff.is_active (staff d)).

(** The two loops of the block, run on the date [today] with the dates
    [days] assigned in turn to the variable: for each active staff member,
    for each assigned date, the [IF] statement, which does not read the
    variable. *)
Definition generate_over (today : Z) (days : list Z) (d : db) : PgError.t + db :=
  for_each (fun staff_id => for_each (fun _ : Z => generate_day staff_id today) days)
           (active_staff d) d.

(** [CURRENT_DATE + i days] for [i] in [0..29]: the dates the loop assigns. *)
Definition horizon (today : Z) : list Z :=
  map (fun i => today + Z.of_nat i) (seq 0 30).

(** How the server parses a PL/pgSQL assignment: by PL/pgSQL itself (before
    PostgreSQL 14), or by the SQL grammar (from 14 on), for which
    [current_date := ...] is a syntax error, [current_date] being
    reserved. *)
Inductive server : Type :=
  | assignment_by_plpgsql
  | assignment_by_sql_grammar.

(** The error of the block where the assignment does not parse (message
    abbreviated). *)
Definition syntax_error : PgError.t :=
  PgError.mk "42601" "syntax error at or near current_date".

(** The block over the assigned dates [days]: it is compiled before it
    runs, so where the assignment does not parse nothing is executed. *)
Definition run_block (v : server) (today : Z) (days : list Z) (d : db)
  : PgError.t + db :=
  match v with
  | assignment_by_sql_grammar => inl syntax_error
  | assignment_by_plpgsql => generate_over today days d
  end.

(** The [DO] block run on the date [today]. *)
Definition generate_timeslots (v : server) (today : Z) (d : db) : PgError.t + db :=
  run_block v today (horizon today) d.

(** The database after a run: a block that raises is rolled back. *)
Definition after_run (v : server) (today : Z) (days : list Z) (d : db) : db :=
  match run_block v today days d with
  | inr d' => d'
  | inl _ => d
  end.

(** *** The generator as a list of insertions *)

(** The start instants the [WHILE] loop goes through. *)
Fixpoint loop_starts (fuel : nat) (slot_time limit : Z) : list Z :=
  match fuel with
  | O => []
  | S fuel' =>
      if slot_time <? limit
      then slot_time :: loop_starts fuel' (slot_time + 30) limit
      else []
  end.

(** The start instants of the working hours of one date. *)
Definition day_starts (date : Z) : list Z :=
  if (dow date =? 0) || (dow date =? 6) then []
  else
    let slot_time := date * minutes_per_day + 9 * 60 in
    let limit := date * minutes_per_day + 17 * 60 in
    loop_starts (Z.to_nat (limit - slot_time)) slot_time limit.

(** The (staff_id, start_ts) pairs that a run on the date [today] attempts
    to insert, in order: for each staff member, the slots of [today] once
    per assigned date. *)
Definition planned (staff_ids : list Z) (today : Z) (days : list Z) : list (Z * Z) :=
  flat_map (fun staff_id =>
              flat_map (fun _ : Z => map (pair staff_id) (day_starts today)) days)
           staff_ids.

(** The insert statement of the loop body for one (staff_id, start_ts). *)
Definition insert_slot (k : Z * Z) (d : db) : PgError.t + db :=
  insert_timeslot (fst k) (snd k) (snd k + 30) d.

(** The row that statement creates, without its identifier. *)
Definition slot_content (k : Z * Z) : Z * Z * Z * bool :=
  (fst k, snd k, snd k + 30, false).

(** Identity values are handed out by the sequence only, so every stored
    identifier lies below the sequence's next value. *)
Definition timeslot_ids_fresh (d : db) : Prop :=
  forall t, In t (timeslots d) -> TimeSlot.id t < timeslots_id_seq d.

(** [UNIQUE(staff_id, start_ts)] as a predicate on a state. *)
Definition unique_slot_key (d : db) : Prop :=
  NoDup (map TimeSlot.key (timeslots d)).

(** ** The system as a transition system *)

(** Modelled from the spec: the administrative action that confirms,
    completes or cancels a booking by its identifier; its code is not among
    the sources, the statement is the plain [UPDATE bookings SET status = st
    WHERE id = bookingId] the schema admits, run with the service role, which
    the policies do not bind. *)
Definition admin_set_status (bookingId : Z) (st : booking_status) (d : db) : db :=
  with_bookings d
    (map (fun b => if Booking.id b =? bookingId then Booking.set_status st b else b)
         (bookings d))
    (bookings_id_seq d).

(** One request against the system, with what the environment contributes
    to it. *)
Inductive operation : Type :=
  | Claim (f : fetch_result) (link : option PgError.t) (uuid : string)
          (bookingData : booking_data)
  | Lookup (link : option PgError.t) (bookingId : Z) (cancelToken : string)
  | Release (link : option PgError.t) (bookingId : Z) (cancelToken : string)
  | AdminSetStatus (bookingId : Z) (st : booking_status)
  | Generate (v : server) (today : Z).

(** Each request is one atomic statement on the database, so any
    interleaving of concurrent callers is a sequence of steps. *)
Definition step (d : db) (o : operation) : db :=
  match o with
  | Claim f link uuid bookingData => final (createBooking f link uuid d bookingData)
  | Lookup link bookingId cancelToken => final (getBooking link d bookingId cancelToken)
  | Release link bookingId cancelToken => final (cancelBooking link d bookingId cancelToken)
  | AdminSetStatus bookingId st => admin_set_status bookingId st d
  | Generate v today =>
      match generate_timeslots v today d with
      | inr d' => d'
      | inl _ => d
      end
  end.

Definition run_all (d : db) (ops : list operation) : db := fold_left step ops d.

(** The states the system can be in: the [bookings] table starts empty. *)
Inductive reachable : db -> Prop :=
  | reachable_init (d : db) : bookings d = [] -> reachable d
  | reachable_step (d : db) (o : operation) : reachable d -> reachable (step d o).

Definition is_active (b : Booking.t) : bool :=
  match Booking.status b with
  | pending | confirmed => true
  | cancelled | completed => false
  end.

(** The bookings in status pending or confirmed that reference timeslot [T]. *)
Definition active_on (T : Z) (d : db) : list Booking.t :=
  filter (fun b => (Booking.timeslot_id b =? T) && is_active b) (bookings d).

(** [UNIQUE(timeslot_id)] and [PRIMARY KEY (id)] as predicates on a state. *)
Definition unique_timeslot (d : db) : Prop :=
  NoDup (map Booking.timeslot_id (bookings d)).
Definition unique_id (d : db) : Prop :=
  NoDup (map Booking.id (bookings d)).

(** The requests a customer can make: claim, lookup and release. *)
Definition customer_operation (o : operation) : Prop :=
  match o with
  | Claim _ _ _ _ | Lookup _ _ _ | Release _ _ _ => True
  | AdminSetStatus _ _ | Generate _ _ => False
  end.

(** ** A small shop to run the functions on *)

Module Example.

(** Two catalogue rows, two staff members, three timeslots on Monday
    1970-01-05 (day 4), no booking yet. *)
Definition shop : db :=
  mkdb
    [Service.mk 1 "Express Wash" 3000 30 "Quick exterior wash and dry" true;
     Service.mk 2 "Interior Deep Clean" 8000 90 "Complete interior treatment" true]
    [Staff.mk 1 "Mike Johnson" "Lead detailer" true;
     Staff.mk 2 "Sarah Chen" "Interior specialist" true]
    [TimeSlot.mk 1 1 6300 6330 false;
     TimeSlot.mk 2 1 6330 6360 false;
     TimeSlot.mk 3 2 6300 6330 false]
    [] 4 1.

Definition alice : booking_data :=
  mk_data 1 1 1 "Alice Smith" "alice@example.com" None None.

Definition bob : booking_data :=
  mk_data 2 1 1 "Bob Jones" "bob@example.com" (Some "555-0100") None.

(** A request whose name is one character long. *)
Definition short_name : booking_data :=
  mk_data 1 1 2 "A" "a@example.com" None None.

(** A request whose name has 101 characters. *)
Definition long_name : booking_data :=
  mk_data 1 1 2 (String.concat "" (repeat "a" 101)) "dave@example.com" None None.

(** A request whose e-mail address is not one. *)
Definition bad_email : booking_data :=
  mk_data 1 1 2 "Carol White" "not-an-email" None None.

Definition timeout : PgError.t := PgError.mk "" "TypeError: Failed to fetch".

(** The token the database draws for Alice's booking, and another way to
    write the same UUID. *)
Definition alice_token : string := "6f1c2a9e-4b7d-4e3a-9c55-0d2e8b7a1f34".
Definition alice_token_upper : string := "6F1C2A9E-4B7D-4E3A-9C55-0D2E8B7A1F34".

(** A well-formed token that no booking has. *)
Definition stray_token : string := "00000000-0000-4000-8000-000000000000".

(** Alice's claim through the direct storage path. *)
Definition claim_alice : operation := Claim FetchRejected None alice_token alice.

Definition after_alice : db := step shop claim_alice.

(** Alice then calls the release with the identifier and token she was
    given. *)
Definition after_cancel : db := step after_alice (Release None 1 alice_token).

(** The booking stored for Alice. *)
Definition alice_booking : Booking.t := new_booking 1 alice_token (to_insert alice).

(** The tokens the database would draw for two further bookings. *)
Definition bob_token : string := "b3d0c1f2-7a64-4c1e-8f09-5a2b6c7d8e90".
Definition carol_token : string := "c47e9a10-2f3b-4d8c-a6e1-9b0f5d3c7a21".

(** A state in which booking 1 has been completed by the shop, and one in
    which the shop has cancelled it. *)
Definition after_completed : db := step after_alice (AdminSetStatus 1 completed).
Definition after_shop_cancel : db := step after_alice (AdminSetStatus 1 cancelled).

(** An address test for the examples: the text contains an at sign. *)
Fixpoint has_at (s : string) : bool :=
  match s with
  | EmptyString => false
  | String c s' => Ascii.eqb c "@"%char || has_at s'
  end.

End Example.

(** ** Further definitions for the properties of the code beyond the claims *)

(** Identity values of [bookings] come from the sequence only. *)
Definition booking_ids_fresh (d : db) : Prop :=
  forall b, In b (bookings d) -> Booking.id b < bookings_id_seq d.

(** The three foreign keys of [bookings]. *)
Definition references_valid (d : db) : Prop :=
  forall b, In b (bookings d) ->
    has_service d (Booking.service_id b) = true
    /\ has_staff d (Booking.staff_id b) = true
    /\ has_timeslot d (Booking.timeslot_id b) = true.

(** Claims that reach the storage layer one after the other, in the order
    in which their inserts are executed: the function is not reachable, the
    storage link works. Each request comes with the token the database
    draws for it. *)
Fixpoint claim_all (requests : list (string * booking_data)) (d : db)
  : list (completion created) * db :=
  match requests with
  | [] => ([], d)
  | (uuid, bookingData) :: rest =>
      let r := createBooking FetchRejected None uuid d bookingData in
      let (outcomes, d') := claim_all rest (final r) in
      (value r :: outcomes, d')
  end.

Definition is_returned {A : Type} (c : completion A) : bool :=
  match c with
  | Returned _ => true
  | Thrown _ => false
  end.

Module Closed.

(** The example shop on a day the shop is closed: every timeslot is
    blocked, and the staff and the services are inactive. *)
Definition shop : db :=
  mkdb
    [Service.mk 1 "Express Wash" 3000 30 "Quick exterior wash and dry" false;
     Service.mk 2 "Interior Deep Clean" 8000 90 "Complete interior treatment" false]
    [Staff.mk 1 "Mike Johnson" "Lead detailer" false;
     Staff.mk 2 "Sarah Chen" "Interior specialist" false]
    [TimeSlot.mk 1 1 6300 6330 true;
     TimeSlot.mk 2 1 6330 6360 true;
     TimeSlot.mk 3 2 6300 6330 true]
    [] 4 1.

End Closed.

(** The properties of a request that break a rule of [BookingSchema], in
    schema order. *)
Definition offending_fields (is_email : string -> bool) (bookingData : booking_data)
  : list string :=
  (if serviceId bookingData <=? 0 then ["serviceId"] else [])
  ++ (if staffId bookingData <=? 0 then ["staffId"] else [])
  ++ (if timeslotId bookingData <=? 0 then ["timeslotId"] else [])
  ++ (if Nat.ltb (String.length (customerName bookingData)) 2
         || Nat.ltb 100 (String.length (customerName bookingData))
      then ["customerName"] else [])
  ++ (if is_email (customerEmail bookingData) then [] else ["customerEmail"])
  ++ (match notes bookingData with
      | Some s => if Nat.ltb 500 (String.length s) then ["notes"] else []
      | None => []
      end).

(** ** Display helpers of the data layer *)

(** A number inside a template literal: its decimal digits, with a minus
    sign when negative. *)
Definition number_to_string (n : Z) : string :=
  NilZero.string_of_int (Z.to_int n).

(** [formatDuration]: minutes below an hour as ["<m> min"], otherwise hours
    and, when there are any, the remaining minutes. *)
Definition formatDuration (minutes : Z) : string :=
  if minutes <? 60 then String.append (number_to_string minutes) " min"
  else
    let hours := minutes / 60 in
    let remainingMinutes := minutes mod 60 in
    if 0 <? remainingMinutes
    then String.append (number_to_string hours)
           (String.append "h " (String.append (number_to_string remainingMinutes) "m"))
    else String.append (number_to_string hours) "h".

(** The characters a printed number is made of. *)
Definition is_number_char (c : ascii) : bool :=
  match c with
  | "0" | "1" | "2" | "3" | "4" | "5" | "6" | "7" | "8" | "9" | "-" => true
  | _ => false
  end%char.

(** A text cut after its leading number characters. *)
Fixpoint split_number (s : string) : string * string :=
  match s with
  | EmptyString => (EmptyString, EmptyString)
  | String c s' =>
      if is_number_char c
      then let (n, rest) := split_number s' in (String c n, rest)
      else (EmptyString, s)
  end.

(** ** The key gate of the admin page *)

Module AdminPage.

(** The component state the gate uses, with the [adminKey] entry of
    [localStorage] beside it. *)
Record state : Type := mk {
  isAuthenticated : bool;
  adminKey : string;
  keyError : string;
  storedKey : option string
}.

(** [if (storedKey)]: an entry that is there and not the empty text. *)
Definition truthy (stored : option string) : bool :=
  match stored with
  | Some s => negb (String.eqb s "")
  | None => false
  end.

(** Mounting the page: the initial state, then the effect that reads
    [localStorage]. *)
Definition mount (stored : option string) : state :=
  match stored with
  | Some s => if truthy stored then mk true s "" stored else mk false "" "" stored
  | None => mk false "" "" stored
  end.

(** The [onChange] of the key input. *)
Definition setAdminKey (key : string) (st : state) : state :=
  mk (isAuthenticated st) key (keyError st) (storedKey st).

Definition handleKeySubmit (st : state) : state :=
  if String.eqb (adminKey st) "admin123"
  then mk true (adminKey st) "" (Some (adminKey st))
  else mk (isAuthenticated st) (adminKey st) "Invalid admin key" (storedKey st).

Definition handleLogout (st : state) : state :=
  mk false "" (keyError st) None.

(** What can happen to the page; [Reload] mounts it again over the same
    [localStorage]. *)
Inductive action : Type :=
  | Type_key (key : string)
  | Submit
  | Logout
  | Reload.

Definition act (st : state) (a : action) : state :=
  match a with
  | Type_key key => setAdminKey key st
  | Submit => handleKeySubmit st
  | Logout => handleLogout st
  | Reload => mount (storedKey st)
  end.

End AdminPage.

(** ** Facts about the storage statements *)

Lemma booking_status_eqb_eq (a b : booking_status) :
  booking_status_eqb a b = true <-> a = b.
Proof. destruct a, b; simpl; split; congruence. Qed.

Lemma existsb_eqb_In {A : Type} (f : A -> Z) (k : Z) (l : list A) :
  existsb (fun x => f x =? k) l = true <-> In k (map f l).
Proof.
  rewrite existsb_exists, in_map_iff.
  split; intros [x [H1 H2]]; exists x.
  - apply Z.eqb_eq in H2. auto.
  - split; [assumption | now apply Z.eqb_eq].
Qed.

Lemma existsb_eqb_notIn {A : Type} (f : A -> Z) (k : Z) (l : list A) :
  existsb (fun x => f x =? k) l = false <-> ~ In k (map f l).
Proof.
  rewrite <- existsb_eqb_In. destruct (existsb _ l); split; congruence.
Qed.

(** What an insert leaves in the table: the old rows, or the old rows and
    the new one, whose identifier and timeslot were both unused. *)
Lemma insert_booking_cases (uuid : string) (r : booking_insert) (d : db) :
  (exists e, fst (insert_booking uuid r d) = inl e
             /\ bookings (snd (insert_booking uuid r d)) = bookings d)
  \/ (fst (insert_booking uuid r d) = inr (new_booking (bookings_id_seq d) uuid r)
      /\ bookings (snd (insert_booking uuid r d))
         = bookings d ++ [new_booking (bookings_id_seq d) uuid r]
      /\ ~ In (bookings_id_seq d) (map Booking.id (bookings d))
      /\ ~ In (ins_timeslot_id r) (map Booking.timeslot_id (bookings d))).
Proof.
  unfold insert_booking.
  destruct (existsb (fun x => Booking.id x =? bookings_id_seq d) (bookings d)) eqn:Hid;
    simpl; [left; eexists; split; reflexivity |].
  destruct (existsb (fun x => Booking.timeslot_id x =? ins_timeslot_id r) (bookings d))
    eqn:Hts; simpl; [left; eexists; split; reflexivity |].
  destruct (has_service d (ins_service_id r) && has_staff d (ins_staff_id r)
            && has_timeslot d (ins_timeslot_id r)); simpl.
  - right. repeat split; try reflexivity.
    + now apply existsb_eqb_notIn in Hid.
    + now apply existsb_eqb_notIn in Hts.
  - left; eexists; split; reflexivity.
Qed.

Lemma NoDup_snoc {A : Type} (l : list A) (x : A) :
  NoDup l -> ~ In x l -> NoDup (l ++ [x]).
Proof.
  intros Hl Hx. apply NoDup_app; [assumption | repeat constructor; auto |].
  intros y Hy [Hy' | []]. subst. contradiction.
Qed.

Lemma set_status_map_timeslot (p : Booking.t -> bool) (st : booking_status)
    (l : list Booking.t) :
  map Booking.timeslot_id (map (fun b => if p b then Booking.set_status st b else b) l)
  = map Booking.timeslot_id l.
Proof.
  rewrite map_map. apply map_ext. intros b. now destruct (p b).
Qed.

Lemma set_status_map_id (p : Booking.t -> bool) (st : booking_status)
    (l : list Booking.t) :
  map Booking.id (map (fun b => if p b then Booking.set_status st b else b) l)
  = map Booking.id l.
Proof.
  rewrite map_map. apply map_ext. intros b. now destruct (p b).
Qed.

(** Properties kept by every statement of a loop are kept by the loop. *)
Lemma for_each_preserves {A : Type} (P : db -> Prop)
    (body : A -> db -> PgError.t + db) (l : list A) :
  (forall x d d', P d -> body x d = inr d' -> P d') ->
  forall d d', P d -> for_each body l d = inr d' -> P d'.
Proof.
  intros Hbody. induction l as [| x l IH]; simpl; intros d d' HP H.
  - now inversion H; subst.
  - destruct (body x d) as [e | d1] eqn:Hx; [discriminate |].
    eapply IH; [| exact H]. eapply Hbody; eauto.
Qed.

Lemma slot_loop_preserves (P : db -> Prop) :
  (forall staff_id s e d d', P d -> insert_timeslot staff_id s e d = inr d' -> P d') ->
  forall fuel staff_id slot_time limit d d',
    P d -> slot_loop fuel staff_id slot_time limit d = inr d' -> P d'.
Proof.
  intros Hins. induction fuel as [| fuel IH]; simpl; intros staff_id t lim d d' HP H.
  - now inversion H; subst.
  - destruct (t <? lim); [| now inversion H; subst].
    destruct (insert_timeslot staff_id t (t + 30) d) as [e | d1] eqn:Hi; [discriminate |].
    eapply IH; [| exact H]. eapply Hins; eauto.
Qed.

Lemma generate_over_preserves (P : db -> Prop) :
  (forall staff_id s e d d', P d -> insert_timeslot staff_id s e d = inr d' -> P d') ->
  forall today days d d', P d -> generate_over today days d = inr d' -> P d'.
Proof.
  intros Hins today days d d' HP. unfold generate_over.
  apply for_each_preserves; [| assumption].
  intros staff_id d0 d1 HP0. apply for_each_preserves; [| assumption].
  intros day d2 d3 HP2. unfold generate_day.
  destruct ((dow today =? 0) || (dow today =? 6)).
  - intros H; now inversion H; subst.
  - now apply slot_loop_preserves.
Qed.

Lemma insert_timeslot_other_tables (staff_id s e : Z) (d d' : db) :
  insert_timeslot staff_id s e d = inr d' ->
  bookings d' = bookings d /\ staff d' = staff d /\ services d' = services d
  /\ bookings_id_seq d' = bookings_id_seq d.
Proof.
  unfold insert_timeslot.
  repeat match goal with |- context [if ?c then _ else _] => destruct c end;
    intros H; inversion H; subst; simpl; auto.
Qed.

Lemma generate_over_bookings (today : Z) (days : list Z) (d d' : db) :
  generate_over today days d = inr d' -> bookings d' = bookings d.
Proof.
  intros H.
  apply (generate_over_preserves (fun x => bookings x = bookings d)) with (3 := H);
    [| reflexivity].
  intros staff_id s e d0 d1 H0 Hi.
  apply insert_timeslot_other_tables in Hi. destruct Hi as [Hb _]. congruence.
Qed.

(** Every step leaves the bookings as they were, rewrites statuses, or adds
    one row on an unused identifier and an unused timeslot. *)
Lemma with_bookings_same (d : db) :
  with_bookings d (bookings d) (bookings_id_seq d) = d.
Proof. now destruct d. Qed.

Lemma set_status_same (b : Booking.t) :
  Booking.set_status (Booking.status b) b = b.
Proof. now destruct b. Qed.

(** An update whose rewritten rows already have the new status changes
    nothing; in particular an update that may rewrite no row. *)
Lemma update_booking_status_fixed (r : role) (bookingId : Z) (cancelToken : string)
    (st : booking_status) (d : db) :
  (forall b, In b (bookings d) ->
             may_update_booking r b && matches bookingId cancelToken b = true ->
             Booking.status b = st) ->
  update_booking_status r bookingId cancelToken st d = d.
Proof.
  intros H. unfold update_booking_status.
  assert (Hmap : map (fun b => if may_update_booking r b && matches bookingId cancelToken b
                               then Booking.set_status st b else b) (bookings d)
                 = bookings d).
  { rewrite <- (map_id (bookings d)) at 2. apply map_ext_in.
    intros b Hb.
    destruct (may_update_booking r b && matches bookingId cancelToken b) eqn:Hm;
      [| reflexivity].
    rewrite <- (H b Hb Hm). apply set_status_same. }
  rewrite Hmap. apply with_bookings_same.
Qed.

(** The client's role may rewrite no booking: its [UPDATE] changes nothing. *)
Lemma update_as_client (bookingId : Z) (cancelToken : string)
    (st : booking_status) (d : db) :
  update_booking_status client_role bookingId cancelToken st d = d.
Proof.
  apply update_booking_status_fixed. intros b _ H. discriminate H.
Qed.

(** Neither the lookup nor the release changes the database. *)
Lemma getBooking_final (link : option PgError.t) (d : db) (i : Z) (tok : string) :
  final (getBooking link d i tok) = d.
Proof.
  unfold getBooking. destruct link; [reflexivity |].
  destruct (filter_error i tok); [reflexivity |].
  destruct (select_booking i tok d) as [| b [| b' l]]; reflexivity.
Qed.

Lemma cancelBooking_final (link : option PgError.t) (d : db) (i : Z) (tok : string) :
  final (cancelBooking link d i tok) = d.
Proof.
  unfold cancelBooking. destruct link; [reflexivity |].
  destruct (filter_error i tok); [reflexivity |].
  cbn [final]. apply update_as_client.
Qed.

(** A release reports success exactly when the round trip to the database
    succeeded and the database could read the two filter values. *)
Lemma cancelBooking_value (link : option PgError.t) (d : db) (i : Z) (tok : string) :
  value (cancelBooking link d i tok) = true
  <-> link = None /\ is_bigint i = true /\ uuid_in tok <> None.
Proof.
  unfold cancelBooking, filter_error. destruct link as [e |]; cbn [value].
  - split; [discriminate | intros [H _]; discriminate H].
  - destruct (is_bigint i); cbn [negb value].
    + destruct (uuid_in tok); cbn [value]; split; try discriminate; auto.
      * intros _. repeat split; discriminate.
      * intros [_ [_ H]]. now contradiction H.
    + split; [discriminate | intros [_ [H _]]; discriminate H].
Qed.

Lemma step_keeps_unique (d : db) (o : operation) :
  unique_timeslot d /\ unique_id d ->
  unique_timeslot (step d o) /\ unique_id (step d o).
Proof.
  unfold unique_timeslot, unique_id. intros [Hts Hid].
  destruct o as [f link uuid bd | link i tok | link i tok | i st | v today];
    cbn [step].
  - assert (Hfb : NoDup (map Booking.timeslot_id
                           (bookings (final (createBooking_fallback link uuid d bd))))
                  /\ NoDup (map Booking.id
                           (bookings (final (createBooking_fallback link uuid d bd))))).
    { unfold createBooking_fallback. destruct link as [e |]; simpl; [auto |].
      destruct (insert_booking_cases uuid (to_insert bd) d)
        as [[e [He Hb]] | [Hr [Hb [Hi Ht]]]];
        destruct (insert_booking uuid (to_insert bd) d) as [[e' | b] d'];
        simpl in *; try discriminate; rewrite Hb; auto.
      rewrite !map_app; simpl. split; apply NoDup_snoc; auto. }
    unfold createBooking. destruct f as [| r]; [exact Hfb |].
    destruct (response_ok r); [| exact Hfb].
    destruct (body r); [exact Hfb | simpl; auto].
  - rewrite getBooking_final. auto.
  - rewrite cancelBooking_final. auto.
  - unfold admin_set_status. cbn [bookings with_bookings].
    rewrite set_status_map_timeslot, set_status_map_id. auto.
  - destruct (generate_timeslots v today d) as [e | d'] eqn:Hg; auto.
    destruct v; [| discriminate Hg].
    apply generate_over_bookings in Hg. rewrite Hg. auto.
Qed.

Lemma reachable_unique (d : db) :
  reachable d -> unique_timeslot d /\ unique_id d.
Proof.
  induction 1 as [d H0 | d o _ IH].
  - unfold unique_timeslot, unique_id. rewrite H0. simpl. split; constructor.
  - now apply step_keeps_unique.
Qed.

(** Under a key with no repeated value, at most one element carries a given
    key value, whatever else is asked of it. *)
Lemma filter_on_key_le_1 {A : Type} (f : A -> Z) (p : A -> bool) (k : Z) (l : list A) :
  NoDup (map f l) ->
  (List.length (filter (fun x => (f x =? k)%Z && p x) l) <= 1)%nat.
Proof.
  induction l as [| a l IH]; simpl; intros Hnd; [lia |].
  inversion Hnd as [| ? ? Hnotin Hnd']; subst.
  destruct (f a =? k) eqn:Hk; simpl; [| auto].
  apply Z.eqb_eq in Hk.
  assert (Hnil : filter (fun x => (f x =? k) && p x) l = []).
  { clear IH Hnd Hnd'. induction l as [| b l IHl]; simpl; [reflexivity |].
    destruct (f b =? k) eqn:Hb; simpl.
    - apply Z.eqb_eq in Hb. exfalso. apply Hnotin. left. congruence.
    - apply IHl. intros Hin. apply Hnotin. now right. }
  rewrite Hnil. destruct (p a); simpl; lia.
Qed.


(** ** The booking store *)

(** Of two claims on one timeslot that both reach the storage layer, the
    one whose insert comes second is rejected as a conflict, whoever sent it. *)
Lemma second_claim_is_rejected (uuid1 uuid2 : string) (d : db)
    (first second : booking_data) (c : created) :
  timeslotId second = timeslotId first ->
  value (createBooking_fallback None uuid1 d first) = Returned c ->
  value (createBooking_fallback None uuid2
           (final (createBooking_fallback None uuid1 d first)) second)
  = Thrown (ApiError.new slot_taken_message).
Proof.
  intros Hts Hfirst.
  assert (Hin : In (timeslotId second)
                   (map Booking.timeslot_id
                      (bookings (final (createBooking_fallback None uuid1 d first))))).
  { revert Hfirst. unfold createBooking_fallback.
    destruct (insert_booking_cases uuid1 (to_insert first) d)
      as [[e [He Hb]] | [Hr [Hb _]]];
      destruct (insert_booking uuid1 (to_insert first) d) as [[e' | x] d'];
      simpl in *; try discriminate.
    intros _. rewrite Hb, map_app, in_app_iff. right. simpl. now left. }
  apply existsb_eqb_In in Hin.
  unfold createBooking_fallback at 1, insert_booking.
  change (ins_timeslot_id (to_insert second)) with (timeslotId second).
  rewrite Hin, orb_true_r. reflexivity.
Qed.

(** C1. In every reachable state each timeslot is referenced by at most one
    booking in status pending or confirmed. The claim operation keeps it so
    with at most one storage request, a single [INSERT] that the unique
    index on [timeslot_id] decides: it issues no read beforehand, its effect
    on the database is exactly that of the one statement, and a timeslot
    some booking already references makes the statement leave the table as
    it was. *)
Theorem one_active_booking_per_timeslot (d : db) (Hreach : reachable d) :
  (forall T, (List.length (active_on T d) <= 1)%nat)
  /\ (forall f link uuid bookingData,
        let r := createBooking f link uuid d bookingData in
        (calls r = [] /\ final r = d)
        \/ (calls r = [InsertBooking (to_insert bookingData)]
            /\ (final r = d
                \/ final r = snd (insert_booking uuid (to_insert bookingData) d))))
  /\ (forall uuid r,
        In (ins_timeslot_id r) (map Booking.timeslot_id (bookings d)) ->
        fst (insert_booking uuid r d) = inl unique_violation
        /\ bookings (snd (insert_booking uuid r d)) = bookings d).
Proof.
  split; [| split].
  - intros T. unfold active_on.
    apply filter_on_key_le_1. now apply reachable_unique.
  - intros f link uuid bd r. subst r.
    assert (Hfb : calls (createBooking_fallback link uuid d bd)
                  = [InsertBooking (to_insert bd)]
                  /\ (final (createBooking_fallback link uuid d bd) = d
                      \/ final (createBooking_fallback link uuid d bd)
                         = snd (insert_booking uuid (to_insert bd) d))).
    { unfold createBooking_fallback. destruct link; [simpl; auto |].
      destruct (insert_booking uuid (to_insert bd) d) as [[e | b] d']; simpl; auto. }
    unfold createBooking. destruct f as [| resp]; [now right |].
    destruct (response_ok resp); [| now right].
    destruct (body resp); [now right | left; simpl; auto].
  - intros uuid r Hin. apply existsb_eqb_In in Hin.
    unfold insert_booking. rewrite Hin, orb_true_r. simpl. auto.
Qed.

Lemma one_active_booking_per_timeslot_witness :
  (List.length (active_on 1 Example.after_alice) <= 1)%nat.
Proof.
  apply (one_active_booking_per_timeslot Example.after_alice).
  unfold Example.after_alice. apply reachable_step. apply reachable_init. reflexivity.
Defined.

Lemma same_uuid_true (s t : string) :
  same_uuid s t = true <-> exists v, uuid_in s = Some v /\ uuid_in t = Some v.
Proof.
  unfold same_uuid. destruct (uuid_in s) as [v |], (uuid_in t) as [w |].
  - rewrite Z.eqb_eq. split.
    + intros ->. now exists w.
    + intros [x [H1 H2]]. congruence.
  - split; [discriminate | intros [x [_ H]]; discriminate H].
  - split; [discriminate | intros [x [H _]]; discriminate H].
  - split; [discriminate | intros [x [H _]]; discriminate H].
Qed.

Lemma same_uuid_refl (s : string) :
  uuid_in s <> None -> same_uuid s s = true.
Proof.
  intros H. apply same_uuid_true. destruct (uuid_in s) as [v |]; [| contradiction].
  now exists v.
Qed.

Lemma same_uuid_read (s t : string) :
  same_uuid s t = true -> uuid_in s <> None /\ uuid_in t <> None.
Proof.
  intros H. apply same_uuid_true in H. destruct H as [v [-> ->]].
  split; discriminate.
Qed.

Lemma matches_true (bookingId : Z) (cancelToken : string) (b : Booking.t) :
  matches bookingId cancelToken b = true
  <-> Booking.id b = bookingId /\ same_uuid (Booking.cancel_token b) cancelToken = true.
Proof.
  unfold matches. rewrite andb_true_iff, Z.eqb_eq. tauto.
Qed.

Lemma select_booking_nil (bookingId : Z) (cancelToken : string) (d : db) :
  select_booking bookingId cancelToken d = [] <->
  (forall b, In b (bookings d) -> matches bookingId cancelToken b = false).
Proof.
  unfold select_booking. split.
  - intros H b Hb. destruct (matches bookingId cancelToken b) eqn:Hm; [| reflexivity].
    assert (Hin : In b (filter (matches bookingId cancelToken) (bookings d)))
      by (apply filter_In; auto).
    rewrite H in Hin. destruct Hin.
  - intros H. induction (bookings d) as [| a l IH]; simpl; [reflexivity |].
    rewrite (H a (or_introl eq_refl)). apply IH. intros b Hb. apply H. now right.
Qed.

(** With identifiers unique, the rows selected by (id, token) are the one
    row that carries the identifier and the UUID the token is read as, when
    there is one. *)
Lemma select_booking_unique (d : db) (b : Booking.t) (cancelToken : string) :
  unique_id d -> In b (bookings d) ->
  same_uuid (Booking.cancel_token b) cancelToken = true ->
  select_booking (Booking.id b) cancelToken d = [b].
Proof.
  unfold unique_id, select_booking. intros Hnd Hin Htok.
  induction (bookings d) as [| a l IH]; simpl; [destruct Hin |].
  inversion Hnd as [| ? ? Hnotin Hnd']; subst.
  assert (Hrest : forall x, In x l -> Booking.id x <> Booking.id a).
  { intros x Hx Heq. apply Hnotin. rewrite <- Heq. now apply in_map. }
  destruct Hin as [-> | Hin].
  - assert (Hm : matches (Booking.id b) cancelToken b = true)
      by (apply matches_true; auto).
    rewrite Hm. f_equal.
    clear IH Hnd Hnd' Hnotin Hm. induction l as [| x l IHl]; simpl; [reflexivity |].
    destruct (matches (Booking.id b) cancelToken x) eqn:Hx.
    + apply matches_true in Hx. destruct Hx as [Hx _].
      exfalso. apply (Hrest x); [now left | assumption].
    + apply IHl. intros y Hy. apply Hrest. now right.
  - destruct (matches (Booking.id b) cancelToken a) eqn:Ha.
    + apply matches_true in Ha. destruct Ha as [Ha _].
      exfalso. apply (Hrest b Hin). congruence.
    + now apply IH.
Qed.

(** With identifiers unique, two rows of the table with the same identifier
    are the same row. *)
Lemma unique_id_same_row (d : db) (x b : Booking.t) :
  unique_id d -> In x (bookings d) -> In b (bookings d) ->
  Booking.id x = Booking.id b -> x = b.
Proof.
  unfold unique_id. induction (bookings d) as [| a l IH]; intros Hnd Hx Hb Hid;
    [destruct Hx |].
  simpl in Hnd. inversion Hnd as [| ? ? Hnotin Hnd']; subst.
  destruct Hx as [-> | Hx], Hb as [-> | Hb].
  - reflexivity.
  - exfalso. apply Hnotin. rewrite Hid. now apply in_map.
  - exfalso. apply Hnotin. rewrite <- Hid. now apply in_map.
  - now apply IH.
Qed.

Lemma filter_error_none (bookingId : Z) (cancelToken : string) :
  filter_error bookingId cancelToken = None
  <-> is_bigint bookingId = true /\ uuid_in cancelToken <> None.
Proof.
  unfold filter_error. destruct (is_bigint bookingId); cbn [negb].
  - destruct (uuid_in cancelToken); split; try discriminate; auto.
    + intros _. split; [reflexivity | discriminate].
    + intros [_ H]. now contradiction H.
  - split; [discriminate | intros [H _]; discriminate H].
Qed.

(** A lookup answers with a booking only if it is a row of the table that
    passes the row filter, and the storage request went through. *)
Lemma getBooking_some (link : option PgError.t) (d : db) (bookingId : Z)
    (cancelToken : string) (b : Booking.t) :
  value (getBooking link d bookingId cancelToken) = Some b ->
  link = None /\ In b (bookings d) /\ matches bookingId cancelToken b = true.
Proof.
  unfold getBooking. destruct link; [discriminate |].
  destruct (filter_error bookingId cancelToken); [discriminate |].
  destruct (select_booking bookingId cancelToken d) as [| x [| y l]] eqn:Hsel;
    cbn [value]; try discriminate.
  intros H. inversion H; subst x.
  assert (Hin : In b (select_booking bookingId cancelToken d)) by (rewrite Hsel; now left).
  apply filter_In in Hin. tauto.
Qed.

Lemma getBooking_none (link : option PgError.t) (d : db) (bookingId : Z)
    (cancelToken : string) :
  (forall b, In b (bookings d) -> matches bookingId cancelToken b = false) ->
  value (getBooking link d bookingId cancelToken) = None.
Proof.
  intros H. apply select_booking_nil in H. unfold getBooking. rewrite H.
  destruct link; [reflexivity |].
  now destruct (filter_error bookingId cancelToken).
Qed.

Lemma getBooking_found (d : db) (b : Booking.t) (cancelToken : string) :
  unique_id d -> In b (bookings d) -> is_bigint (Booking.id b) = true ->
  same_uuid (Booking.cancel_token b) cancelToken = true ->
  value (getBooking None d (Booking.id b) cancelToken) = Some b.
Proof.
  intros Hkey Hin Hid Htok. unfold getBooking.
  assert (Hf : filter_error (Booking.id b) cancelToken = None).
  { apply filter_error_none. split; [assumption |]. now apply same_uuid_read in Htok. }
  rewrite Hf. now rewrite (select_booking_unique d b cancelToken Hkey Hin Htok).
Qed.

(** ** Release and lookup *)

(** Once a booking references a timeslot, whatever its status, a claim on
    that timeslot that reaches the storage layer is rejected by
    [UNIQUE(timeslot_id)] and stores nothing. *)
Lemma cancelled_booking_still_blocks (d : db) (b : Booking.t) (uuid : string)
    (bookingData : booking_data) :
  In b (bookings d) -> timeslotId bookingData = Booking.timeslot_id b ->
  fst (insert_booking uuid (to_insert bookingData) d) = inl unique_violation
  /\ value (createBooking FetchRejected None uuid d bookingData)
     = Thrown (ApiError.new slot_taken_message)
  /\ bookings (final (createBooking FetchRejected None uuid d bookingData))
     = bookings d.
Proof.
  intros Hin Hts.
  assert (Hex : existsb (fun x => Booking.timeslot_id x
                                  =? ins_timeslot_id (to_insert bookingData))
                  (bookings d) = true).
  { apply existsb_eqb_In. cbn [to_insert ins_timeslot_id]. rewrite Hts.
    now apply in_map. }
  unfold createBooking, createBooking_fallback, insert_booking.
  rewrite Hex, orb_true_r. cbn. auto.
Qed.

(** C2, where the code departs from it. Let a booking [b] reference the
    timeslot of a claim. The claim, sent through the storage path, is
    rejected as a slot conflict and creates no booking: in the state as it
    is (whatever the status of [b], cancelled included), in the state after
    a release with the identifier and credential of [b] (whatever the
    storage link did), and in the state after the shop has set [b] to
    cancelled. [UNIQUE(timeslot_id)] counts every booking: the insert
    fails with 23505. *)
Theorem reclaim_after_cancel_is_rejected (d : db) (b : Booking.t) (uuid : string)
    (bookingData : booking_data)
    (Hin : In b (bookings d))
    (Hts : timeslotId bookingData = Booking.timeslot_id b) :
  forall d',
    d' = d
    \/ (exists link,
          d' = final (cancelBooking link d (Booking.id b) (Booking.cancel_token b)))
    \/ d' = admin_set_status (Booking.id b) cancelled d ->
    fst (insert_booking uuid (to_insert bookingData) d') = inl unique_violation
    /\ value (createBooking FetchRejected None uuid d' bookingData)
       = Thrown (ApiError.new slot_taken_message)
    /\ bookings (final (createBooking FetchRejected None uuid d' bookingData))
       = bookings d'.
Proof.
  intros d' [-> | [[link ->] | ->]].
  - now apply (cancelled_booking_still_blocks d b).
  - rewrite cancelBooking_final. now apply (cancelled_booking_still_blocks d b).
  - apply (cancelled_booking_still_blocks _ (Booking.set_status cancelled b)).
    + unfold admin_set_status. cbn [bookings with_bookings].
      apply in_map_iff. exists b. split; [| assumption].
      now rewrite Z.eqb_refl.
    + exact Hts.
Qed.

Lemma reclaim_after_cancel_is_rejected_witness :
  value (cancelBooking None Example.after_alice 1 Example.alice_token) = true
  /\ value (createBooking FetchRejected None Example.bob_token
              (final (cancelBooking None Example.after_alice 1 Example.alice_token))
              Example.bob)
     = Thrown (ApiError.new slot_taken_message).
Proof.
  split; [reflexivity |].
  apply (reclaim_after_cancel_is_rejected Example.after_alice Example.alice_booking
           Example.bob_token Example.bob (or_introl eq_refl) eq_refl).
  right. left. exists None. reflexivity.
Defined.

(** C3, as stated, fails: a well-formed pair that matches no booking is
    answered with success, and so is the pair of a booking that is already
    completed. *)
Lemma release_of_unknown_pair_reports_success :
  select_booking 77 Example.stray_token Example.shop = []
  /\ value (cancelBooking None Example.shop 77 Example.stray_token) = true
  /\ map Booking.status (select_booking 1 Example.alice_token Example.after_completed)
     = [completed]
  /\ value (cancelBooking None Example.after_completed 1 Example.alice_token) = true.
Proof. repeat split. Qed.

(** C3, amended. For a pair that matches no booking the release operation
    leaves the database as it is. It reports success exactly when the
    storage request went through and the database could read the pair: the
    identifier is a [BIGINT] and the credential is the text of a UUID.
    Otherwise it reports failure. It has no not-found answer of its own: the
    [null] of the lookup is the answer for such a pair. The same condition
    decides the answer for every pair, matching or not, whatever the status
    of a matched booking. *)
Theorem release_of_unknown_pair (link : option PgError.t) (d : db)
    (bookingId : Z) (cancelToken : string)
    (Hnone : select_booking bookingId cancelToken d = []) :
  final (cancelBooking link d bookingId cancelToken) = d
  /\ (value (cancelBooking link d bookingId cancelToken) = true
      <-> link = None /\ is_bigint bookingId = true /\ uuid_in cancelToken <> None)
  /\ value (getBooking link d bookingId cancelToken) = None
  /\ (forall link' d' bookingId' cancelToken',
        value (cancelBooking link' d' bookingId' cancelToken') = true
        <-> link' = None /\ is_bigint bookingId' = true
            /\ uuid_in cancelToken' <> None).
Proof.
  split; [| split; [| split]].
  - apply cancelBooking_final.
  - apply cancelBooking_value.
  - apply getBooking_none. now apply select_booking_nil.
  - intros link' d' i' t'. apply cancelBooking_value.
Qed.

Lemma release_of_unknown_pair_witness :
  select_booking 77 Example.stray_token Example.shop = []
  /\ final (cancelBooking None Example.shop 77 Example.stray_token) = Example.shop
  /\ value (cancelBooking None Example.shop 77 Example.stray_token) = true.
Proof.
  split; [reflexivity |].
  destruct (release_of_unknown_pair None Example.shop 77 Example.stray_token eq_refl)
    as [Hfinal [Hvalue _]].
  split; [exact Hfinal |].
  apply Hvalue. repeat split; discriminate.
Defined.

(** C4, as stated, fails: the credential is compared as a UUID, not as a
    text. Alice's token written in upper case is not the text that is
    stored, and the lookup returns her booking for it. *)
Lemma lookup_accepts_another_spelling :
  Example.alice_token_upper <> Booking.cancel_token Example.alice_booking
  /\ In Example.alice_booking (bookings Example.after_alice)
  /\ value (getBooking None Example.after_alice 1 Example.alice_token_upper)
     = Some Example.alice_booking.
Proof.
  split; [discriminate |]. split; [now left | reflexivity].
Qed.

(** C4, amended. Lookup with the identifier of an existing booking and a
    credential that is not read as the UUID stored with it, and lookup with
    an identifier that no booking has, both answer [null], whatever the
    storage link does: the two answers are the same value, so the answer
    does not tell whether the identifier exists. A booking is returned only
    if it is stored under that identifier and its stored credential is the
    UUID the given text is read as; and the stored booking is returned for
    every text that is read as its credential, when the storage request
    goes through. *)
Theorem lookup_does_not_reveal_identifiers (d : db) (Hkey : unique_id d) :
  (forall link link' (b : Booking.t) (wrong : string) (absent : Z) (any : string),
      In b (bookings d) -> same_uuid (Booking.cancel_token b) wrong = false ->
      ~ In absent (map Booking.id (bookings d)) ->
      value (getBooking link d (Booking.id b) wrong) = None
      /\ value (getBooking link' d absent any) = None
      /\ value (getBooking link d (Booking.id b) wrong)
         = value (getBooking link' d absent any))
  /\ (forall link bookingId cancelToken b,
        value (getBooking link d bookingId cancelToken) = Some b ->
        In b (bookings d) /\ Booking.id b = bookingId
        /\ same_uuid (Booking.cancel_token b) cancelToken = true)
  /\ (forall b cancelToken,
        In b (bookings d) -> is_bigint (Booking.id b) = true ->
        same_uuid (Booking.cancel_token b) cancelToken = true ->
        value (getBooking None d (Booking.id b) cancelToken) = Some b).
Proof.
  split; [| split].
  - intros link link' b wrong absent any Hb Hwrong Habsent.
    assert (H1 : value (getBooking link d (Booking.id b) wrong) = None).
    { apply getBooking_none. intros x Hx.
      destruct (matches (Booking.id b) wrong x) eqn:Hm; [| reflexivity].
      apply matches_true in Hm. destruct Hm as [Hid Htok].
      rewrite (unique_id_same_row d x b Hkey Hx Hb Hid) in Htok. congruence. }
    assert (H2 : value (getBooking link' d absent any) = None).
    { apply getBooking_none. intros x Hx.
      destruct (matches absent any x) eqn:Hm; [| reflexivity].
      apply matches_true in Hm. destruct Hm as [Hid _].
      exfalso. apply Habsent. rewrite <- Hid. now apply in_map. }
    rewrite H1, H2. auto.
  - intros link i tok b H. apply getBooking_some in H.
    destruct H as [_ [Hin Hm]]. apply matches_true in Hm. tauto.
  - intros b tok Hb Hid Htok. now apply getBooking_found.
Qed.

Lemma lookup_does_not_reveal_identifiers_witness :
  unique_id Example.after_alice
  /\ value (getBooking None Example.after_alice 1 Example.stray_token) = None
  /\ value (getBooking None Example.after_alice 2 Example.alice_token) = None.
Proof.
  assert (Hkey : unique_id Example.after_alice).
  { unfold unique_id. simpl. repeat constructor. simpl. tauto. }
  split; [exact Hkey |].
  destruct (proj1 (lookup_does_not_reveal_identifiers Example.after_alice Hkey)
              None None Example.alice_booking Example.stray_token 2 Example.alice_token)
    as [H1 [H2 _]].
  - simpl. now left.
  - reflexivity.
  - simpl. lia.
  - split; [exact H1 | exact H2].
Defined.

(** C5, where the code departs from it. A release with the identifier and
    credential of a booking reports success, and so does a second one, but
    neither cancels the booking: the statement runs as role [anon], which no
    policy allows to update a booking, so the database after each release is
    the database before it, and a lookup with the same pair still returns
    the booking in the status it had. *)
Theorem release_does_not_cancel (d : db) (b : Booking.t)
    (Hkey : unique_id d)
    (Hin : In b (bookings d))
    (Hid : is_bigint (Booking.id b) = true)
    (Htok : uuid_in (Booking.cancel_token b) <> None) :
  let first := cancelBooking None d (Booking.id b) (Booking.cancel_token b) in
  let second := cancelBooking None (final first) (Booking.id b) (Booking.cancel_token b) in
  value first = true /\ final first = d
  /\ value second = true /\ final second = d
  /\ value (getBooking None (final second) (Booking.id b) (Booking.cancel_token b))
     = Some b
  /\ (forall link bookingId cancelToken,
        final (cancelBooking link d bookingId cancelToken) = d).
Proof.
  cbv zeta. rewrite !cancelBooking_final.
  assert (Hv : value (cancelBooking None d (Booking.id b) (Booking.cancel_token b)) = true)
    by (apply cancelBooking_value; auto).
  repeat split; try exact Hv.
  - apply getBooking_found; auto. now apply same_uuid_refl.
  - intros link i tok. apply cancelBooking_final.
Qed.

Lemma release_does_not_cancel_witness :
  value (cancelBooking None Example.after_alice 1 Example.alice_token) = true
  /\ map Booking.status
       (bookings (final (cancelBooking None Example.after_alice 1 Example.alice_token)))
     = [confirmed].
Proof.
  assert (Hkey : unique_id Example.after_alice).
  { unfold unique_id. simpl. repeat constructor. simpl. tauto. }
  destruct (release_does_not_cancel Example.after_alice Example.alice_booking Hkey
              (or_introl eq_refl) eq_refl)
    as [Hv [Hf _]].
  - discriminate.
  - split; [exact Hv |]. cbv zeta in Hf.
    change (Booking.id Example.alice_booking) with 1 in Hf.
    change (Booking.cancel_token Example.alice_booking) with Example.alice_token in Hf.
    rewrite Hf. reflexivity.
Defined.

(** ** The status of a booking *)

(** A request of a customer leaves every stored booking as it is. *)
Lemma createBooking_keeps_rows (f : fetch_result) (link : option PgError.t)
    (uuid : string) (d : db) (bookingData : booking_data) (b : Booking.t) :
  In b (bookings d) ->
  In b (bookings (final (createBooking f link uuid d bookingData))).
Proof.
  intros Hin.
  assert (Hfb : In b (bookings (final (createBooking_fallback link uuid d bookingData)))).
  { unfold createBooking_fallback. destruct link; simpl; [assumption |].
    destruct (insert_booking_cases uuid (to_insert bookingData) d)
      as [[e [He Hb]] | [Hr [Hb _]]];
      destruct (insert_booking uuid (to_insert bookingData) d) as [[e' | x] d'];
      simpl in *; try discriminate; rewrite Hb; auto.
    apply in_or_app. now left. }
  unfold createBooking. destruct f as [| r]; [exact Hfb |].
  destruct (response_ok r); [| exact Hfb].
  destruct (body r); [exact Hfb | simpl; assumption].
Qed.

Lemma customer_step_keeps_rows (d : db) (o : operation) (b : Booking.t) :
  customer_operation o -> In b (bookings d) -> In b (bookings (step d o)).
Proof.
  destruct o as [f link uuid bd | link i tok | link i tok | i st | v today];
    cbn [customer_operation step]; intros Hop Hin; try contradiction.
  - now apply createBooking_keeps_rows.
  - now rewrite getBooking_final.
  - now rewrite cancelBooking_final.
Qed.

Lemma run_all_keeps_unique (ops : list operation) (d : db) :
  unique_timeslot d /\ unique_id d ->
  unique_timeslot (run_all d ops) /\ unique_id (run_all d ops).
Proof.
  revert d. induction ops as [| o ops IH]; intros d H; [exact H |].
  cbn [run_all fold_left]. apply IH. now apply step_keeps_unique.
Qed.

Lemma customer_run_keeps_rows (ops : list operation) (d : db) (b : Booking.t) :
  Forall customer_operation ops -> In b (bookings d) ->
  In b (bookings (run_all d ops)).
Proof.
  revert d. induction ops as [| o ops IH]; intros d Hops Hin; [exact Hin |].
  inversion Hops as [| ? ? Ho Hrest]; subst.
  cbn [run_all fold_left]. apply IH; [assumption |].
  now apply customer_step_keeps_rows.
Qed.

(** C6. Whatever requests customers make, in whatever order and whatever
    the storage link does, a stored booking stays the row it is: claim and
    lookup never write to an existing booking, and the [UPDATE] of release
    runs as a role that may rewrite none. So a booking that is cancelled or
    completed is found cancelled or completed, with the same identifier,
    after every such sequence; in particular a release with the booking's
    own identifier and credential leaves the table as it was. *)
Theorem cancelled_is_final (d : db) (ops : list operation) (b : Booking.t)
    (Hkey : unique_timeslot d /\ unique_id d)
    (Hops : Forall customer_operation ops)
    (Hin : In b (bookings d))
    (Hst : Booking.status b = cancelled \/ Booking.status b = completed) :
  In b (bookings (run_all d ops))
  /\ (forall b', In b' (bookings (run_all d ops)) -> Booking.id b' = Booking.id b ->
                 Booking.status b' = Booking.status b)
  /\ (forall link,
        bookings (step d (Release link (Booking.id b) (Booking.cancel_token b)))
        = bookings d).
Proof.
  assert (Hrow : In b (bookings (run_all d ops)))
    by now apply customer_run_keeps_rows.
  split; [exact Hrow | split].
  - intros b' Hb' Hid.
    destruct (run_all_keeps_unique ops d Hkey) as [_ Hu].
    now rewrite (unique_id_same_row _ b' b Hu Hb' Hrow Hid).
  - intros link. cbn [step]. now rewrite cancelBooking_final.
Qed.

Lemma cancelled_is_final_witness :
  Forall customer_operation
    [Release None 1 Example.alice_token; Lookup None 1 Example.alice_token;
     Claim FetchRejected None Example.bob_token Example.bob]
  /\ In (Booking.set_status completed Example.alice_booking)
        (bookings (run_all Example.after_completed
                     [Release None 1 Example.alice_token;
                      Lookup None 1 Example.alice_token;
                      Claim FetchRejected None Example.bob_token Example.bob])).
Proof.
  assert (Hops : Forall customer_operation
                   [Release None 1 Example.alice_token;
                    Lookup None 1 Example.alice_token;
                    Claim FetchRejected None Example.bob_token Example.bob])
    by (repeat constructor).
  split; [exact Hops |].
  apply (cancelled_is_final Example.after_completed _
           (Booking.set_status completed Example.alice_booking)).
  - unfold unique_timeslot, unique_id. simpl.
    split; repeat constructor; simpl; tauto.
  - exact Hops.
  - now left.
  - now right.
Defined.

(** ** The claim operation *)

(** What the deployed handler answers to the request [createBooking] posts:
    the mock success when the schema has no issue with it, else 400 with
    the issues. *)
Lemma handler_on_post (is_email : string -> bool) (mockBookingId : Z)
    (random36 : string) (bookingData : booking_data) :
  handler is_email mockBookingId random36
    (mk_event "POST" (ObjectBody (to_json bookingData)))
  = match schema_issues is_email (to_json bookingData) with
    | [] => mock_success mockBookingId (String.append "cancel-" random36)
    | issues => mk_response 400 (json_error "Invalid data" (Some issues))
    end.
Proof.
  unfold handler, BookingSchema_parse. simpl.
  now destruct (schema_issues is_email (to_json bookingData)).
Qed.

(** C7, where the code departs from it. When the serverless function is
    deployed and the request passes the schema, [createBooking] reports
    success with the two mock values of the handler as identifier and
    credential, although no storage request was issued and the database is
    unchanged: no booking was committed. *)
Theorem claim_success_without_commit (is_email : string -> bool)
    (mockBookingId : Z) (random36 : string) (link : option PgError.t)
    (uuid : string) (d : db) (bookingData : booking_data)
    (Hvalid : schema_issues is_email (to_json bookingData) = []) :
  let r := createBooking (fetch_deployed is_email mockBookingId random36 bookingData)
             link uuid d bookingData in
  value r = Returned (mk_created (Some mockBookingId)
                                 (Some (String.append "cancel-" random36)))
  /\ calls r = []
  /\ final r = d.
Proof.
  unfold fetch_deployed. rewrite handler_on_post, Hvalid. simpl. auto.
Qed.

Lemma claim_success_without_commit_witness :
  let r := createBooking
             (fetch_deployed Example.has_at 4711 "k3j9x0q1z" Example.alice)
             None Example.alice_token Example.shop Example.alice in
  value r = Returned (mk_created (Some 4711) (Some "cancel-k3j9x0q1z"))
  /\ calls r = []
  /\ final r = Example.shop.
Proof.
  apply (claim_success_without_commit Example.has_at 4711 "k3j9x0q1z" None
           Example.alice_token Example.shop Example.alice).
  reflexivity.
Defined.

(** On the storage path the answer does carry the stored row's values. *)
Lemma claim_through_storage_returns_stored_row (link : option PgError.t)
    (uuid : string) (d : db) (bookingData : booking_data) (c : created) :
  value (createBooking_fallback link uuid d bookingData) = Returned c ->
  exists b, In b (bookings (final (createBooking_fallback link uuid d bookingData)))
            /\ ~ In (Booking.id b) (map Booking.id (bookings d))
            /\ bookingId c = Some (Booking.id b)
            /\ cancelToken c = Some (Booking.cancel_token b)
            /\ Booking.timeslot_id b = timeslotId bookingData
            /\ Booking.status b = confirmed.
Proof.
  unfold createBooking_fallback. destruct link; simpl; [discriminate |].
  destruct (insert_booking_cases uuid (to_insert bookingData) d)
    as [[e [He Hb]] | [Hr [Hb [Hi _]]]];
    destruct (insert_booking uuid (to_insert bookingData) d) as [[e' | x] d'];
    simpl in *; try discriminate.
  intros H. inversion H; subst c. inversion Hr; subst x.
  exists (new_booking (bookings_id_seq d) uuid (to_insert bookingData)).
  rewrite Hb. repeat split; auto. apply in_or_app. right. now left.
Qed.

(** C8, as stated, fails: the error thrown for a slot conflict, the one
    thrown when the storage request times out and the one thrown for a
    reference to a missing service all carry status 400 and the same name;
    they differ in their message text only. *)
Lemma slot_conflict_shares_its_status :
  let conflict := createBooking FetchRejected None Example.bob_token
                    Example.after_alice Example.bob in
  let offline := createBooking FetchRejected (Some Example.timeout) Example.bob_token
                   Example.after_alice Example.bob in
  let missing := createBooking FetchRejected None Example.bob_token Example.after_alice
                   (mk_data 99 1 2 "Bob Jones" "bob@example.com" None None) in
  fst (insert_booking Example.bob_token (to_insert Example.bob) Example.after_alice)
  = inl unique_violation
  /\ exists e1 e2 e3,
       value conflict = Thrown e1 /\ value offline = Thrown e2
       /\ value missing = Thrown e3
       /\ ApiError.status e1 = ApiError.status e2
       /\ ApiError.status e1 = ApiError.status e3
       /\ ApiError.name e1 = ApiError.name e2
       /\ ApiError.name e1 = ApiError.name e3
       /\ ApiError.message e1 <> ApiError.message e2
       /\ ApiError.message e1 <> ApiError.message e3.
Proof.
  split; [reflexivity |].
  eexists. eexists. eexists.
  repeat (split; [reflexivity |]). split; discriminate.
Qed.

Lemma createBooking_throws_400 (f : fetch_result) (link : option PgError.t)
    (uuid : string) (d : db) (bookingData : booking_data) (e : ApiError.t) :
  value (createBooking f link uuid d bookingData) = Thrown e ->
  ApiError.status e = 400 /\ ApiError.name e = "ApiError".
Proof.
  assert (Hfail : forall x, ApiError.status (insert_failure x) = 400
                            /\ ApiError.name (insert_failure x) = "ApiError").
  { intros x. unfold insert_failure.
    destruct (String.eqb (PgError.code x) "23505"); simpl; auto. }
  assert (Hfb : value (createBooking_fallback link uuid d bookingData) = Thrown e ->
                ApiError.status e = 400 /\ ApiError.name e = "ApiError").
  { unfold createBooking_fallback. destruct link as [x |]; simpl.
    - intros H; inversion H; subst. apply Hfail.
    - destruct (insert_booking uuid (to_insert bookingData) d) as [[x | b] d'];
        simpl; intros H; inversion H; subst. apply Hfail. }
  unfold createBooking. destruct f as [| r]; [exact Hfb |].
  destruct (response_ok r); [| exact Hfb].
  destruct (body r); [exact Hfb | simpl; discriminate].
Qed.

Lemma createBooking_on_storage_path (f : fetch_result) (link link' : option PgError.t)
    (uuid : string) (d : db) (bookingData : booking_data) :
  calls (createBooking f link uuid d bookingData) <> [] ->
  createBooking f link' uuid d bookingData
  = createBooking_fallback link' uuid d bookingData.
Proof.
  unfold createBooking. destruct f as [| r]; [reflexivity |].
  destruct (response_ok r); [| reflexivity].
  destruct (body r); [reflexivity |]. simpl. congruence.
Qed.

(** C8, amended. A claim whose insert the uniqueness constraint rejects
    fails with an [ApiError] that carries the fixed slot-taken message and
    status 400. Every error [createBooking] throws has status 400 and the
    same name, so neither tells the conflict apart from another failure: a
    storage error with any other code is rethrown with the storage layer's
    own message, and the message is the only difference. *)
Theorem slot_conflict_is_reported_by_message (f : fetch_result) (uuid : string)
    (d : db) (bookingData : booking_data)
    (Hstorage : calls (createBooking f None uuid d bookingData) <> [])
    (Hrejected : fst (insert_booking uuid (to_insert bookingData) d)
                 = inl unique_violation) :
  value (createBooking f None uuid d bookingData)
  = Thrown (ApiError.mk "ApiError" slot_taken_message 400)
  /\ (forall e, PgError.code e <> "23505" ->
        value (createBooking f (Some e) uuid d bookingData)
        = Thrown (ApiError.mk "ApiError" (PgError.message e) 400))
  /\ (forall f' link' uuid' d' bookingData' e,
        value (createBooking f' link' uuid' d' bookingData') = Thrown e ->
        ApiError.status e = 400 /\ ApiError.name e = "ApiError").
Proof.
  split; [| split].
  - rewrite (createBooking_on_storage_path f None None uuid d bookingData Hstorage).
    unfold createBooking_fallback.
    destruct (insert_booking uuid (to_insert bookingData) d) as [[x | b] d'];
      simpl in *; [| discriminate].
    inversion Hrejected; subst. reflexivity.
  - intros e He.
    rewrite (createBooking_on_storage_path f None (Some e) uuid d bookingData Hstorage).
    unfold createBooking_fallback, insert_failure. simpl.
    apply String.eqb_neq in He. now rewrite He.
  - intros f' link' uuid' d' bd' e. apply createBooking_throws_400.
Qed.

Lemma slot_conflict_is_reported_by_message_witness :
  value (createBooking FetchRejected None Example.bob_token Example.after_alice Example.bob)
  = Thrown (ApiError.mk "ApiError" slot_taken_message 400).
Proof.
  apply (slot_conflict_is_reported_by_message FetchRejected Example.bob_token
           Example.after_alice Example.bob).
  - simpl. discriminate.
  - reflexivity.
Defined.

(** A request the schema has an issue with is answered 400 by the handler,
    and [createBooking] then runs its storage branch on the same data. *)
Lemma invalid_request_reaches_storage (is_email : string -> bool)
    (mockBookingId : Z) (random36 : string) (link : option PgError.t)
    (uuid : string) (d : db) (bookingData : booking_data) :
  schema_issues is_email (to_json bookingData) <> [] ->
  createBooking (fetch_deployed is_email mockBookingId random36 bookingData)
    link uuid d bookingData
  = createBooking_fallback link uuid d bookingData.
Proof.
  intros H. unfold fetch_deployed. rewrite handler_on_post.
  destruct (schema_issues is_email (to_json bookingData)); [congruence | reflexivity].
Qed.

(** The form stops a request its own schema has an issue with before
    [createBooking] is called: field errors, no storage request. *)
Lemma form_rejects_before_storage (is_email : string -> bool)
    (f : booking_data -> fetch_result) (link : option PgError.t) (uuid : string)
    (d : db) (data : booking_data) :
  form_issues is_email (to_json data) <> [] ->
  BookingForm_submit is_email f link uuid d data
  = mkrun (FieldErrors (form_issues is_email (to_json data))) d [].
Proof.
  intros H. unfold BookingForm_submit.
  destruct (form_issues is_email (to_json data)); [congruence | reflexivity].
Qed.

(** The handler's schema asks for everything the form's schema asks for. *)
Lemma form_schema_is_weaker (is_email : string -> bool) (o : json_request) :
  schema_issues is_email o = [] -> form_issues is_email o = [].
Proof.
  unfold schema_issues, form_issues. intros H.
  apply app_eq_nil in H. destruct H as [H1 H].
  apply app_eq_nil in H. destruct H as [H2 H].
  apply app_eq_nil in H. destruct H as [H3 H].
  apply app_eq_nil in H. destruct H as [Hname H].
  rewrite H1, H2, H3, H. simpl. rewrite app_nil_r.
  unfold check_name in Hname. unfold check_form_name.
  destruct (q_customerName o) as [| n | s |]; try discriminate.
  apply app_eq_nil in Hname. tauto.
Qed.

(** C9, where the code departs from it. A name of 101 characters passes the
    form, whose schema has no upper bound; the handler answers 400 with an
    issue that names [customerName]; [createBooking] treats the answer like
    an unreachable function, inserts the data and reports success. Called
    with a name of one character, or with the address [not-an-email],
    [createBooking] does the same: the handler's 400 names [customerName]
    (or [customerEmail]), and the row is stored. *)
Theorem invalid_claim_is_stored :
  (let answer := handler Example.has_at 4711 "k3j9x0q1z"
                   (mk_event "POST" (ObjectBody (to_json Example.long_name))) in
   let r := BookingForm_submit Example.has_at
              (fetch_deployed Example.has_at 4711 "k3j9x0q1z")
              None Example.carol_token Example.shop Example.long_name in
   answer = mk_response 400
              (json_error "Invalid data" (Some [mk_issue too_big ["customerName"]]))
   /\ value r = Submitted (Returned (mk_created (Some 1) (Some Example.carol_token)))
   /\ calls r = [InsertBooking (to_insert Example.long_name)]
   /\ map (fun b => String.length (Booking.customer_name b)) (bookings (final r))
      = [101%nat])
  /\ (forall (is_email : string -> bool) (mockBookingId : Z) (random36 : string),
     let answer := handler is_email mockBookingId random36
                     (mk_event "POST" (ObjectBody (to_json Example.short_name))) in
     let r := createBooking (FetchResolved answer) None Example.carol_token
                Example.shop Example.short_name in
     statusCode answer = 400
     /\ (exists issues, body answer = json_error "Invalid data" (Some issues)
                        /\ In (mk_issue too_small ["customerName"]) issues)
     /\ value r = Returned (mk_created (Some 1) (Some Example.carol_token))
     /\ calls r = [InsertBooking (to_insert Example.short_name)]
     /\ map Booking.customer_name (bookings (final r)) = ["A"])
  /\ (let answer := handler Example.has_at 4711 "k3j9x0q1z"
                      (mk_event "POST" (ObjectBody (to_json Example.bad_email))) in
      let r := createBooking (FetchResolved answer) None Example.carol_token
                 Example.shop Example.bad_email in
      answer = mk_response 400
                 (json_error "Invalid data"
                    (Some [mk_issue invalid_email ["customerEmail"]]))
      /\ value r = Returned (mk_created (Some 1) (Some Example.carol_token))
      /\ map Booking.customer_email (bookings (final r)) = ["not-an-email"]).
Proof.
  split; [| split].
  - vm_compute. repeat split.
  - intros is_email m r36.
    rewrite handler_on_post. unfold schema_issues, check_email. simpl.
    destruct (is_email "a@example.com"); simpl;
      (split; [reflexivity |]); (split; [| repeat split]);
      eexists; (split; [reflexivity |]); simpl; auto.
  - repeat split.
Qed.

(** ** The timeslot generator *)

Lemma for_each_app {A : Type} (body : A -> db -> PgError.t + db) (l1 l2 : list A)
    (d : db) :
  for_each body (l1 ++ l2) d
  = match for_each body l1 d with
    | inl e => inl e
    | inr d' => for_each body l2 d'
    end.
Proof.
  revert d. induction l1 as [| x l1 IH]; simpl; intros d; [reflexivity |].
  destruct (body x d); [reflexivity | apply IH].
Qed.

Lemma for_each_flat_map {A B : Type} (body : B -> db -> PgError.t + db)
    (g : A -> list B) (l : list A) (d : db) :
  for_each (fun x => for_each body (g x)) l d = for_each body (flat_map g l) d.
Proof.
  revert d. induction l as [| x l IH]; simpl; intros d; [reflexivity |].
  rewrite for_each_app. destruct (for_each body (g x) d); [reflexivity | apply IH].
Qed.

Lemma for_each_ext {A : Type} (f g : A -> db -> PgError.t + db) (l : list A) (d : db) :
  (forall x d', f x d' = g x d') -> for_each f l d = for_each g l d.
Proof.
  intros H. revert d. induction l as [| x l IH]; simpl; intros d; [reflexivity |].
  rewrite H. destruct (g x d); [reflexivity | apply IH].
Qed.

(** The [WHILE] loop is the sequence of its insert statements. *)
Lemma slot_loop_as_inserts (fuel : nat) (staff_id slot_time limit : Z) (d : db) :
  slot_loop fuel staff_id slot_time limit d
  = for_each insert_slot (map (pair staff_id) (loop_starts fuel slot_time limit)) d.
Proof.
  revert slot_time d. induction fuel as [| fuel IH]; simpl; intros t d; [reflexivity |].
  destruct (t <? limit); simpl; [| reflexivity].
  unfold insert_slot at 1. simpl.
  destruct (insert_timeslot staff_id t (t + 30) d); [reflexivity | apply IH].
Qed.

Lemma generate_day_as_inserts (staff_id today : Z) (d : db) :
  generate_day staff_id today d
  = for_each insert_slot (map (pair staff_id) (day_starts today)) d.
Proof.
  unfold generate_day, day_starts.
  destruct ((dow today =? 0) || (dow today =? 6)); [reflexivity |].
  apply slot_loop_as_inserts.
Qed.

(** A run of the generator is the sequence of the planned inserts. *)
Lemma generate_over_as_inserts (today : Z) (days : list Z) (d : db) :
  generate_over today days d
  = for_each insert_slot (planned (active_staff d) today days) d.
Proof.
  unfold generate_over, planned.
  rewrite <- for_each_flat_map. apply for_each_ext. intros staff_id d'.
  rewrite <- for_each_flat_map. apply for_each_ext. intros day d''.
  apply generate_day_as_inserts.
Qed.

(** The loop stops by its own test before the fuel runs out: with fuel
    [limit - slot_time] or more it visits every instant [slot_time + 30 i]
    below the limit, and nothing else. *)
Lemma loop_starts_spec (fuel : nat) (slot_time limit x : Z) :
  limit - slot_time <= Z.of_nat fuel ->
  In x (loop_starts fuel slot_time limit)
  <-> exists i, 0 <= i /\ x = slot_time + 30 * i /\ x < limit.
Proof.
  revert slot_time. induction fuel as [| fuel IH]; intros t Hle.
  - cbn [loop_starts In]. split; [intros [] |].
    intros [i [Hi [-> Hlt]]]. change (Z.of_nat 0) with 0 in Hle. lia.
  - cbn [loop_starts]. destruct (t <? limit) eqn:Hlt.
    + apply Z.ltb_lt in Hlt. cbn [In]. rewrite (IH (t + 30)) by lia. split.
      * intros [<- | [i [Hi [-> Hx]]]].
        -- exists 0. lia.
        -- exists (i + 1). lia.
      * intros [i [Hi [-> Hx]]].
        destruct (Z.eq_dec i 0) as [-> | Hne]; [left; lia |].
        right. exists (i - 1). lia.
    + apply Z.ltb_ge in Hlt. split; [intros [] |]. intros [i [Hi [-> Hx]]]. lia.
Qed.

(** The slots of a working day: sixteen half hours from 9:00 on. *)
Lemma day_starts_spec (date x : Z) :
  dow date <> 0 -> dow date <> 6 ->
  In x (day_starts date)
  <-> exists i, 0 <= i < 16 /\ x = date * 1440 + 540 + 30 * i.
Proof.
  intros H0 H6. unfold day_starts, minutes_per_day.
  apply Z.eqb_neq in H0, H6. rewrite H0, H6. simpl orb. cbv iota.
  rewrite loop_starts_spec by lia. split.
  - intros [i [Hi [-> Hx]]]. exists i. lia.
  - intros [i [Hi ->]]. exists i. lia.
Qed.

Lemma day_starts_weekend (date : Z) :
  dow date = 0 \/ dow date = 6 -> day_starts date = [].
Proof.
  intros H. unfold day_starts.
  destruct H as [-> | ->]; reflexivity.
Qed.

Lemma same_key_In (staff_id start_ts : Z) (l : list TimeSlot.t) :
  existsb (same_key staff_id start_ts) l = true
  <-> In (staff_id, start_ts) (map TimeSlot.key l).
Proof.
  rewrite existsb_exists, in_map_iff. unfold same_key, TimeSlot.key.
  split; intros [t [H1 H2]]; exists t.
  - apply andb_true_iff in H2. destruct H2 as [Ha Hb].
    apply Z.eqb_eq in Ha, Hb. split; [congruence | assumption].
  - inversion H1; subst. split; [assumption |]. now rewrite !Z.eqb_refl.
Qed.

Lemma active_staff_has_staff (d : db) (staff_id : Z) :
  In staff_id (active_staff d) -> has_staff d staff_id = true.
Proof.
  unfold active_staff, has_staff. intros H.
  apply in_map_iff in H. destruct H as [s [Hs Hin]].
  apply filter_In in Hin. destruct Hin as [Hin _].
  apply existsb_exists. exists s. split; [assumption |]. now apply Z.eqb_eq.
Qed.

(** One insert statement on a state with fresh identifiers and a known
    staff member: it does not raise; the rows are the old ones, plus the
    new one when its key was unused. *)
Lemma insert_slot_effect (k : Z * Z) (d : db) :
  timeslot_ids_fresh d -> has_staff d (fst k) = true ->
  exists d', insert_slot k d = inr d'
    /\ staff d' = staff d
    /\ timeslot_ids_fresh d'
    /\ timeslots d'
       = (if existsb (same_key (fst k) (snd k)) (timeslots d) then timeslots d
          else timeslots d
               ++ [TimeSlot.mk (timeslots_id_seq d) (fst k) (snd k) (snd k + 30) false]).
Proof.
  intros Hfresh Hstaff. unfold insert_slot, insert_timeslot.
  destruct (existsb (same_key (fst k) (snd k)) (timeslots d)) eqn:Hk.
  - eexists. split; [reflexivity |]. simpl. repeat split.
    intros t Ht. simpl. specialize (Hfresh t Ht). lia.
  - assert (Hid : existsb (fun t => TimeSlot.id t =? timeslots_id_seq d) (timeslots d)
                  = false).
    { apply existsb_eqb_notIn. intros Hin. apply in_map_iff in Hin.
      destruct Hin as [t [Heq Ht]]. specialize (Hfresh t Ht). lia. }
    rewrite Hid, Hstaff. eexists. split; [reflexivity |]. simpl. repeat split.
    intros t Ht. simpl. apply in_app_or in Ht. destruct Ht as [Ht | [<- | []]].
    + specialize (Hfresh t Ht). lia.
    + simpl. lia.
Qed.

Lemma has_staff_same_table (d d' : db) (staff_id : Z) :
  staff d' = staff d -> has_staff d' staff_id = has_staff d staff_id.
Proof. unfold has_staff. now intros ->. Qed.

Lemma key_eq_dec (k k' : Z * Z) : {k = k'} + {k <> k'}.
Proof. decide equality; apply Z.eq_dec. Qed.

(** The effect of one insert statement on the keys and on the contents. *)
Lemma insert_slot_sets (k : Z * Z) (d : db) :
  timeslot_ids_fresh d -> has_staff d (fst k) = true ->
  exists d', insert_slot k d = inr d'
    /\ staff d' = staff d
    /\ timeslot_ids_fresh d'
    /\ (forall x, In x (map TimeSlot.key (timeslots d'))
                  <-> In x (map TimeSlot.key (timeslots d)) \/ x = k)
    /\ (forall c, In c (map TimeSlot.content (timeslots d'))
                  <-> In c (map TimeSlot.content (timeslots d))
                      \/ (~ In k (map TimeSlot.key (timeslots d)) /\ c = slot_content k))
    /\ (unique_slot_key d -> unique_slot_key d').
Proof.
  intros Hfresh Hstaff.
  destruct (insert_slot_effect k d Hfresh Hstaff) as [d' [Hrun [Hst [Hfr Hrows]]]].
  exists d'. split; [exact Hrun |]. split; [exact Hst |]. split; [exact Hfr |].
  unfold unique_slot_key. rewrite Hrows.
  destruct (existsb (same_key (fst k) (snd k)) (timeslots d)) eqn:Hk.
  - apply same_key_In in Hk. rewrite <- surjective_pairing in Hk.
    split; [| split].
    + intros x. split; [auto | intros [H | ->]; assumption].
    + intros c. split; [auto | intros [H | [H _]]; [assumption | contradiction]].
    + auto.
  - assert (Hnot : ~ In k (map TimeSlot.key (timeslots d))).
    { intros Hin. rewrite (surjective_pairing k) in Hin.
      apply same_key_In in Hin. congruence. }
    assert (Hnew : TimeSlot.key
                     (TimeSlot.mk (timeslots_id_seq d) (fst k) (snd k) (snd k + 30) false)
                   = k).
    { unfold TimeSlot.key. simpl. symmetry. apply surjective_pairing. }
    rewrite !map_app. simpl map. rewrite Hnew.
    split; [| split].
    + intros x. rewrite in_app_iff. simpl. split.
      * intros [H | [H | []]]; auto.
      * intros [H | H]; auto.
    + intros c. rewrite in_app_iff. simpl. split.
      * intros [H | [H | []]]; auto.
      * intros [H | [_ H]]; auto.
    + intros Hnd. now apply NoDup_snoc.
Qed.

(** The effect of a sequence of insert statements: it does not raise, the
    keys are the old ones and the attempted ones, the contents are the old
    rows and one new row per attempted key that was unused, and the key
    stays unique. *)
Lemma inserts_effect (ks : list (Z * Z)) (d : db) :
  timeslot_ids_fresh d ->
  (forall k, In k ks -> has_staff d (fst k) = true) ->
  exists d', for_each insert_slot ks d = inr d'
    /\ staff d' = staff d
    /\ timeslot_ids_fresh d'
    /\ (forall x, In x (map TimeSlot.key (timeslots d'))
                  <-> In x (map TimeSlot.key (timeslots d)) \/ In x ks)
    /\ (forall c, In c (map TimeSlot.content (timeslots d'))
                  <-> In c (map TimeSlot.content (timeslots d))
                      \/ exists k, In k ks
                                   /\ ~ In k (map TimeSlot.key (timeslots d))
                                   /\ c = slot_content k)
    /\ (unique_slot_key d -> unique_slot_key d').
Proof.
  revert d. induction ks as [| k ks IH]; intros d Hfresh Hstaff.
  - exists d. simpl. repeat split; auto; try tauto.
    intros [H | [k [[] _]]]. assumption.
  - destruct (insert_slot_sets k d Hfresh (Hstaff k (or_introl eq_refl)))
      as [d1 [Hrun1 [Hst1 [Hfr1 [Hkeys1 [Hcont1 Hnd1]]]]]].
    destruct (IH d1 Hfr1) as [d' [Hrun [Hst [Hfr [Hkeys [Hcont Hnd]]]]]].
    { intros x Hx. rewrite (has_staff_same_table d d1 _ Hst1).
      apply Hstaff. now right. }
    exists d'. simpl. rewrite Hrun1. split; [exact Hrun |].
    split; [congruence |]. split; [exact Hfr |].
    split; [| split].
    + intros x. rewrite Hkeys, Hkeys1. simpl. intuition auto.
    + intros c. rewrite Hcont, Hcont1. split.
      * intros [[H | [Hn ->]] | [k' [Hin [Hn ->]]]].
        -- now left.
        -- right. exists k. simpl. auto.
        -- right. exists k'. simpl. repeat split; auto.
           intros Hk'. apply Hn. apply Hkeys1. now left.
      * intros [H | [k' [[<- | Hin] [Hn ->]]]].
        -- left. now left.
        -- left. right. auto.
        -- destruct (key_eq_dec k' k) as [-> | Hne].
           ++ left. right. auto.
           ++ right. exists k'. repeat split; auto.
              intros Hk'. apply Hkeys1 in Hk'. destruct Hk' as [Hk' | Hk']; auto.
    + auto.
Qed.

Lemma planned_In (staff_ids : list Z) (today : Z) (days : list Z) (k : Z * Z) :
  In k (planned staff_ids today days)
  <-> In (fst k) staff_ids /\ days <> [] /\ In (snd k) (day_starts today).
Proof.
  unfold planned. rewrite in_flat_map. split.
  - intros [s [Hs Hin]]. apply in_flat_map in Hin. destruct Hin as [day [Hday Hin]].
    apply in_map_iff in Hin. destruct Hin as [t [<- Ht]]. simpl.
    repeat split; auto. intros ->. destruct Hday.
  - intros [Hs [Hdays Ht]]. exists (fst k). split; [assumption |].
    destruct days as [| day days]; [contradiction |].
    apply in_flat_map. exists day. split; [now left |].
    apply in_map_iff. exists (snd k). split; [symmetry; apply surjective_pairing | assumption].
Qed.

(** A run of the loops on a state with fresh identifiers. *)
Lemma generate_over_effect (today : Z) (days : list Z) (d : db) :
  timeslot_ids_fresh d ->
  exists d', generate_over today days d = inr d'
    /\ staff d' = staff d
    /\ timeslot_ids_fresh d'
    /\ (forall x, In x (map TimeSlot.key (timeslots d'))
                  <-> In x (map TimeSlot.key (timeslots d))
                      \/ In x (planned (active_staff d) today days))
    /\ (forall c, In c (map TimeSlot.content (timeslots d'))
                  <-> In c (map TimeSlot.content (timeslots d))
                      \/ exists k, In k (planned (active_staff d) today days)
                                   /\ ~ In k (map TimeSlot.key (timeslots d))
                                   /\ c = slot_content k)
    /\ (unique_slot_key d -> unique_slot_key d').
Proof.
  intros Hfresh. rewrite generate_over_as_inserts.
  apply inserts_effect; [assumption |].
  intros k Hk. apply planned_In in Hk. destruct Hk as [Hk _].
  now apply active_staff_has_staff.
Qed.








(** Monday 1970-01-05 has its sixteen slots from 9:00 to 16:30; the
    Saturday and the Sunday before have none. *)
Example day_starts_monday :
  day_starts 4
  = [6300; 6330; 6360; 6390; 6420; 6450; 6480; 6510;
     6540; 6570; 6600; 6630; 6660; 6690; 6720; 6750]
  /\ day_starts 2 = [] /\ day_starts 3 = [].
Proof. repeat split. Qed.

(** A run on the example shop on Monday 1970-01-05, where the server
    parses the assignment: the block goes through the insert statements of
    that Monday thirty times for each of the two staff members, and the
    table ends with the sixteen slots of the Monday for both, three of which
    were there; no slot of a later date is created. Where the assignment
    does not parse the run raises and the shop is as before. *)
Example generate_on_shop :
  match generate_timeslots assignment_by_plpgsql 4 Example.shop with
  | inr d' => List.length (timeslots d') = (2 * 16)%nat
              /\ timeslots_id_seq d' = 4 + 2 * 30 * 16
              /\ forallb (fun t => TimeSlot.start_ts t <? 5 * minutes_per_day)
                         (timeslots d') = true
  | inl _ => False
  end
  /\ generate_timeslots assignment_by_sql_grammar 4 Example.shop = inl syntax_error
  /\ step Example.shop (Generate assignment_by_sql_grammar 4) = Example.shop.
Proof. vm_compute. repeat split; reflexivity. Qed.

(** * Properties of the code beyond the claims *)

(** ** Claim, lookup, release and availability together *)

(** When exactly an insert into [bookings] goes through. *)
Lemma insert_booking_inr_iff (uuid : string) (r : booking_insert) (d : db)
    (b : Booking.t) :
  fst (insert_booking uuid r d) = inr b
  <-> b = new_booking (bookings_id_seq d) uuid r
      /\ ~ In (bookings_id_seq d) (map Booking.id (bookings d))
      /\ ~ In (ins_timeslot_id r) (map Booking.timeslot_id (bookings d))
      /\ has_service d (ins_service_id r) = true
      /\ has_staff d (ins_staff_id r) = true
      /\ has_timeslot d (ins_timeslot_id r) = true.
Proof.
  unfold insert_booking.
  rewrite <- !existsb_eqb_notIn.
  destruct (existsb (fun x => Booking.id x =? bookings_id_seq d) (bookings d));
    simpl; [split; [discriminate | intros [_ [H _]]; discriminate] |].
  destruct (existsb (fun x => Booking.timeslot_id x =? ins_timeslot_id r) (bookings d));
    simpl; [split; [discriminate | intros [_ [_ [H _]]]; discriminate] |].
  destruct (has_service d (ins_service_id r)); simpl;
    [| split; [discriminate | intros [_ [_ [_ [H _]]]]; discriminate]].
  destruct (has_staff d (ins_staff_id r)); simpl;
    [| split; [discriminate | intros [_ [_ [_ [_ [H _]]]]]; discriminate]].
  destruct (has_timeslot d (ins_timeslot_id r)); simpl;
    [| split; [discriminate | intros [_ [_ [_ [_ [_ H]]]]]; discriminate]].
  split.
  - intros H. inversion H. auto 10.
  - intros [-> _]. reflexivity.
Qed.

(** What the storage branch of [createBooking] returns and leaves behind. *)
Lemma createBooking_storage_cases (uuid : string) (d : db) (bookingData : booking_data) :
  let r := createBooking FetchRejected None uuid d bookingData in
  (exists b, fst (insert_booking uuid (to_insert bookingData) d) = inr b
             /\ value r = Returned (mk_created (Some (Booking.id b))
                                               (Some (Booking.cancel_token b)))
             /\ bookings (final r) = bookings d ++ [b])
  \/ (exists e, fst (insert_booking uuid (to_insert bookingData) d) = inl e
                /\ value r = Thrown (insert_failure e)
                /\ bookings (final r) = bookings d).
Proof.
  simpl. unfold createBooking_fallback.
  destruct (insert_booking_cases uuid (to_insert bookingData) d)
    as [[e [He Hb]] | [Hr [Hb _]]];
    destruct (insert_booking uuid (to_insert bookingData) d) as [[e' | x] d'];
    simpl in *; try discriminate.
  - right. exists e'. auto.
  - left. exists x. inversion Hr; subst. auto.
Qed.

Lemma createBooking_storage_tables (uuid : string) (d : db) (bookingData : booking_data) :
  let r := createBooking FetchRejected None uuid d bookingData in
  services (final r) = services d /\ staff (final r) = staff d
  /\ timeslots (final r) = timeslots d
  /\ bookings_id_seq (final r) = bookings_id_seq d + 1.
Proof.
  simpl. unfold createBooking_fallback, insert_booking.
  repeat match goal with |- context [if ?c then _ else _] => destruct c end;
    simpl; auto.
Qed.

Lemma fresh_id_unused (d : db) :
  booking_ids_fresh d -> ~ In (bookings_id_seq d) (map Booking.id (bookings d)).
Proof.
  intros Hfresh Hin. apply in_map_iff in Hin. destruct Hin as [b [Heq Hb]].
  specialize (Hfresh b Hb). lia.
Qed.

(** X1. With identifiers drawn from the sequence, a claim that reaches the
    storage layer succeeds exactly when no booking of any status references
    the timeslot and the service, the staff member and the timeslot exist.
    Nothing else is consulted: not the timeslot's blocked flag, not the
    active flags of service and staff. *)
Theorem claim_succeeds_iff (uuid : string) (d : db) (bookingData : booking_data)
    (Hfresh : booking_ids_fresh d) :
  (exists c, value (createBooking FetchRejected None uuid d bookingData) = Returned c)
  <-> ~ In (timeslotId bookingData) (map Booking.timeslot_id (bookings d))
      /\ has_service d (serviceId bookingData) = true
      /\ has_staff d (staffId bookingData) = true
      /\ has_timeslot d (timeslotId bookingData) = true.
Proof.
  destruct (createBooking_storage_cases uuid d bookingData)
    as [[b [Hins [Hv _]]] | [e [Hins [Hv _]]]]; cbv zeta in *.
  - apply insert_booking_inr_iff in Hins. simpl in Hins.
    split; [intros _; tauto | intros _; eauto].
  - split.
    + intros [c Hc]. rewrite Hv in Hc. discriminate.
    + intros [Hts [Hs [Hst Ht]]]. exfalso.
      assert (Hok : fst (insert_booking uuid (to_insert bookingData) d)
                    = inr (new_booking (bookings_id_seq d) uuid (to_insert bookingData))).
      { apply insert_booking_inr_iff. simpl. repeat split; auto.
        now apply fresh_id_unused. }
      congruence.
Qed.

Lemma claim_on_blocked_slot_witness :
  booking_ids_fresh Closed.shop
  /\ exists c, value (createBooking FetchRejected None Example.alice_token Closed.shop
                        Example.alice) = Returned c.
Proof.
  assert (Hfresh : booking_ids_fresh Closed.shop) by (intros b []).
  split; [exact Hfresh |].
  apply (claim_succeeds_iff Example.alice_token Closed.shop Example.alice Hfresh).
  simpl. tauto.
Defined.

Lemma step_keeps_booking_ids_fresh (d : db) (o : operation) :
  booking_ids_fresh d -> booking_ids_fresh (step d o).
Proof.
  unfold booking_ids_fresh. intros Hfresh.
  assert (Hfb : forall link uuid bd b,
             In b (bookings (final (createBooking_fallback link uuid d bd))) ->
             Booking.id b < bookings_id_seq (final (createBooking_fallback link uuid d bd))).
  { intros link uuid bd b. destruct link as [e |]; [simpl; auto |].
    change (createBooking_fallback None uuid d bd)
      with (createBooking FetchRejected None uuid d bd).
    destruct (createBooking_storage_tables uuid d bd) as [_ [_ [_ Hseq]]].
    cbv zeta in Hseq. rewrite Hseq.
    destruct (createBooking_storage_cases uuid d bd)
      as [[x [Hins [_ Hb]]] | [e [_ [_ Hb]]]]; cbv zeta in Hb; rewrite Hb.
    - intros Hin. apply in_app_or in Hin. destruct Hin as [Hin | [<- | []]].
      + specialize (Hfresh b Hin). lia.
      + apply insert_booking_inr_iff in Hins. destruct Hins as [-> _]. simpl. lia.
    - intros Hin. specialize (Hfresh b Hin). lia. }
  assert (Hset : forall (p : Booking.t -> bool) st b,
             In b (map (fun x => if p x then Booking.set_status st x else x) (bookings d)) ->
             Booking.id b < bookings_id_seq d).
  { intros p st b Hin. apply in_map_iff in Hin. destruct Hin as [x [<- Hx]].
    specialize (Hfresh x Hx). now destruct (p x). }
  destruct o as [f link uuid bd | link i tok | link i tok | i st | v today];
    cbn [step].
  - unfold createBooking. destruct f as [| r]; [apply Hfb |].
    destruct (response_ok r); [| apply Hfb].
    destruct (body r); [apply Hfb | simpl; auto].
  - rewrite getBooking_final. exact Hfresh.
  - rewrite cancelBooking_final. exact Hfresh.
  - apply Hset.
  - destruct (generate_timeslots v today d) as [e | d'] eqn:Hg; auto.
    destruct v; [| discriminate Hg].
    pose proof (generate_over_bookings _ _ _ _ Hg) as Hb.
    assert (Hseq : bookings_id_seq d' = bookings_id_seq d).
    { apply (generate_over_preserves
               (fun x => bookings_id_seq x = bookings_id_seq d)) with (3 := Hg);
        [| reflexivity].
      intros s a e0 d0 d1 H0 Hi. apply insert_timeslot_other_tables in Hi.
      destruct Hi as [_ [_ [_ Hi]]]. congruence. }
    rewrite Hb, Hseq. exact Hfresh.
Qed.

Lemma reachable_booking_ids_fresh (d : db) :
  reachable d -> booking_ids_fresh d.
Proof.
  induction 1 as [d H0 | d o _ IH].
  - intros b Hb. rewrite H0 in Hb. destruct Hb.
  - now apply step_keeps_booking_ids_fresh.
Qed.

Lemma claim_all_cons (uuid : string) (bookingData : booking_data)
    (rest : list (string * booking_data)) (d : db) :
  claim_all ((uuid, bookingData) :: rest) d
  = (value (createBooking FetchRejected None uuid d bookingData)
       :: fst (claim_all rest (final (createBooking FetchRejected None uuid d bookingData))),
     snd (claim_all rest (final (createBooking FetchRejected None uuid d bookingData)))).
Proof.
  cbn [claim_all].
  now destruct (claim_all rest (final (createBooking FetchRejected None uuid d bookingData))).
Qed.

Lemma claim_on_referenced_slot (uuid : string) (d : db) (bookingData : booking_data) :
  In (timeslotId bookingData) (map Booking.timeslot_id (bookings d)) ->
  value (createBooking FetchRejected None uuid d bookingData)
  = Thrown (ApiError.new slot_taken_message)
  /\ bookings (final (createBooking FetchRejected None uuid d bookingData)) = bookings d.
Proof.
  intros Hin. apply existsb_eqb_In in Hin. simpl.
  unfold createBooking_fallback, insert_booking.
  change (ins_timeslot_id (to_insert bookingData)) with (timeslotId bookingData).
  rewrite Hin, orb_true_r. simpl. auto.
Qed.

(** Once the timeslot is referenced, every further claim on it is rejected
    as a conflict. *)
Lemma claims_on_referenced_slot (T : Z) (requests : list (string * booking_data)) :
  (forall rq, In rq requests -> timeslotId (snd rq) = T) ->
  forall d, In T (map Booking.timeslot_id (bookings d)) ->
  fst (claim_all requests d)
  = map (fun _ => Thrown (ApiError.new slot_taken_message)) requests
  /\ bookings (snd (claim_all requests d)) = bookings d.
Proof.
  induction requests as [| [uuid bd] rest IH]; intros Hall d HT; [simpl; auto |].
  assert (Hbd : timeslotId bd = T) by (apply (Hall (uuid, bd)); now left).
  destruct (claim_on_referenced_slot uuid d bd) as [Hv Hb]; [now rewrite Hbd |].
  rewrite claim_all_cons.
  destruct (IH (fun rq H => Hall rq (or_intror H))
               (final (createBooking FetchRejected None uuid d bd))) as [Hout Hbs].
  { now rewrite Hb. }
  cbn [fst snd map]. rewrite Hv, Hout, Hbs, Hb. auto.
Qed.

(** X2. Of any number of claims on one timeslot that reach the storage
    layer, in whatever order their inserts are executed, at most one
    succeeds. When the timeslot is unreferenced and every request names an
    existing service, staff member and timeslot, the first insert wins: it
    gets the next identifier and its own token, every other claim is
    rejected as a conflict, and exactly one booking is added. *)
Theorem concurrent_claims_one_winner (T : Z) (requests : list (string * booking_data))
    (d : db)
    (Hall : forall rq, In rq requests -> timeslotId (snd rq) = T) :
  (List.length (filter is_returned (fst (claim_all requests d))) <= 1)%nat
  /\ (booking_ids_fresh d ->
      ~ In T (map Booking.timeslot_id (bookings d)) ->
      has_timeslot d T = true ->
      (forall rq, In rq requests ->
                  has_service d (serviceId (snd rq)) = true
                  /\ has_staff d (staffId (snd rq)) = true) ->
      forall uuid bookingData rest, requests = (uuid, bookingData) :: rest ->
      fst (claim_all requests d)
      = Returned (mk_created (Some (bookings_id_seq d)) (Some uuid))
        :: map (fun _ => Thrown (ApiError.new slot_taken_message)) rest
      /\ bookings (snd (claim_all requests d))
         = bookings d
           ++ [new_booking (bookings_id_seq d) uuid (to_insert bookingData)]).
Proof.
  assert (Hnil : forall rest : list (string * booking_data),
             filter is_returned
               (map (fun _ => @Thrown created (ApiError.new slot_taken_message)) rest)
             = []).
  { induction rest as [| x rest IHr]; simpl; auto. }
  split.
  - revert d. induction requests as [| [uuid bd] rest IH]; intros d; [simpl; lia |].
    assert (Hbd : timeslotId bd = T) by (apply (Hall (uuid, bd)); now left).
    pose proof (fun rq H => Hall rq (or_intror H)) as Hrest.
    rewrite claim_all_cons. cbn [fst].
    destruct (createBooking_storage_cases uuid d bd)
      as [[b [Hins [Hv Hb]]] | [e [Hins [Hv Hb]]]]; cbv zeta in Hv, Hb.
    + destruct (claims_on_referenced_slot T rest Hrest
                  (final (createBooking FetchRejected None uuid d bd))) as [Hout _].
      { rewrite Hb, map_app, in_app_iff. right. simpl. left.
        apply insert_booking_inr_iff in Hins. destruct Hins as [-> _]. exact Hbd. }
      rewrite Hv, Hout. cbn [filter is_returned]. rewrite Hnil. simpl. lia.
    + rewrite Hv. cbn [filter is_returned]. apply IH. exact Hrest.
  - intros Hfresh HT Hslot Hrefs uuid bd rest ->.
    assert (Hbd : timeslotId bd = T) by (apply (Hall (uuid, bd)); now left).
    destruct (Hrefs (uuid, bd) (or_introl eq_refl)) as [Hs Hst]. simpl in Hs, Hst.
    assert (Hok : fst (insert_booking uuid (to_insert bd) d)
                  = inr (new_booking (bookings_id_seq d) uuid (to_insert bd))).
    { apply insert_booking_inr_iff. simpl. rewrite Hbd. repeat split; auto.
      now apply fresh_id_unused. }
    destruct (createBooking_storage_cases uuid d bd)
      as [[b [Hins [Hv Hb]]] | [e [Hins _]]]; [| congruence].
    cbv zeta in Hv, Hb.
    assert (b = new_booking (bookings_id_seq d) uuid (to_insert bd)) by congruence.
    subst b.
    destruct (claims_on_referenced_slot T rest (fun rq H => Hall rq (or_intror H))
                (final (createBooking FetchRejected None uuid d bd))) as [Hout Hbs].
    { rewrite Hb, map_app, in_app_iff. right. simpl. now left. }
    rewrite claim_all_cons. cbn [fst snd]. rewrite Hv, Hout, Hbs, Hb. auto.
Qed.

Lemma concurrent_claims_one_winner_witness :
  (List.length
     (filter is_returned
        (fst (claim_all [(Example.bob_token, Example.bob); (Example.alice_token, Example.alice)]
                Example.shop))) <= 1)%nat.
Proof.
  apply (concurrent_claims_one_winner 1
           [(Example.bob_token, Example.bob); (Example.alice_token, Example.alice)] Example.shop).
  intros rq [<- | [<- | []]]; reflexivity.
Defined.

(** X3. A claim that succeeded through the storage layer can be looked up
    with exactly what it returned: the lookup gives the stored booking,
    which carries the submitted data, status confirmed and the drawn token.
    Before the claim the same pair was answered with [null]. The token is
    the text of a UUID, as [gen_random_uuid()] draws it, and the identifier
    handed out by the identity column is a [BIGINT]. *)
Theorem claim_then_lookup (uuid : string) (d : db) (bookingData : booking_data)
    (c : created) (Hkey : unique_id d)
    (Huuid : uuid_in uuid <> None)
    (Hseq : is_bigint (bookings_id_seq d) = true)
    (Hclaim : value (createBooking FetchRejected None uuid d bookingData) = Returned c) :
  let d' := final (createBooking FetchRejected None uuid d bookingData) in
  exists i,
    bookingId c = Some i /\ cancelToken c = Some uuid
    /\ value (getBooking None d' i uuid)
       = Some (new_booking i uuid (to_insert bookingData))
    /\ value (getBooking None d i uuid) = None.
Proof.
  cbv zeta.
  destruct (createBooking_storage_cases uuid d bookingData)
    as [[b [Hins [Hv Hb]]] | [e [_ [Hv _]]]]; cbv zeta in Hv; [| congruence].
  cbv zeta in Hb.
  apply insert_booking_inr_iff in Hins. destruct Hins as [-> [Hid _]].
  rewrite Hv in Hclaim. inversion Hclaim; subst c. simpl bookingId. simpl cancelToken.
  exists (bookings_id_seq d). repeat split.
  - set (b := new_booking (bookings_id_seq d) uuid (to_insert bookingData)) in *.
    set (d' := final (createBooking FetchRejected None uuid d bookingData)) in *.
    assert (Hkey' : unique_id d').
    { unfold unique_id. rewrite Hb, map_app. simpl. now apply NoDup_snoc. }
    assert (Hin : In b (bookings d')) by (rewrite Hb; apply in_or_app; right; now left).
    apply (getBooking_found d' b uuid Hkey' Hin Hseq).
    now apply same_uuid_refl.
  - apply getBooking_none. intros x Hx.
    destruct (matches (bookings_id_seq d) uuid x) eqn:Hm; [| reflexivity].
    apply matches_true in Hm. destruct Hm as [Hm _].
    exfalso. apply Hid. rewrite <- Hm. now apply in_map.
Qed.

Lemma claim_then_lookup_witness :
  exists i,
    bookingId (mk_created (Some 1) (Some Example.alice_token)) = Some i
    /\ cancelToken (mk_created (Some 1) (Some Example.alice_token))
       = Some Example.alice_token
    /\ value (getBooking None Example.after_alice i Example.alice_token)
       = Some (new_booking i Example.alice_token (to_insert Example.alice))
    /\ value (getBooking None Example.shop i Example.alice_token) = None.
Proof.
  apply (claim_then_lookup Example.alice_token Example.shop Example.alice
           (mk_created (Some 1) (Some Example.alice_token))).
  - unfold unique_id. simpl. constructor.
  - discriminate.
  - reflexivity.
  - reflexivity.
Defined.

Lemma not_booked_iff (bs : list Booking.t) :
  not_booked bs = true <-> forall b, In b bs -> Booking.status b = cancelled.
Proof.
  unfold not_booked. rewrite orb_true_iff, forallb_forall. split.
  - intros [H | H] b Hb.
    + destruct bs; [destruct Hb | discriminate].
    + apply booking_status_eqb_eq. now apply H.
  - intros H. right. intros b Hb. apply booking_status_eqb_eq. now apply H.
Qed.

(** X5. What [getAvailableSlots] offers, in terms of the tables: the
    timeslots that are not blocked, belong to the staff member asked for
    (a [staffId] of 0 counts as none given), start inside the window, and
    whose bookings, if any, are all cancelled. A slot with a pending, a
    confirmed or a completed booking is never offered, nor a blocked one.
    When the storage request fails the function throws an [ApiError] with
    the storage layer's message. *)
Theorem available_slots_spec (d : db) (staffId : option Z) (from_ts to_ts : Z) :
  (exists slots,
      value (getAvailableSlots None d staffId from_ts to_ts) = Returned slots
      /\ forall slot,
           In slot slots
           <-> In slot (timeslots d)
               /\ TimeSlot.is_blocked slot = false
               /\ match staffId with
                  | Some i => i = 0 \/ TimeSlot.staff_id slot = i
                  | None => True
                  end
               /\ from_ts <= TimeSlot.start_ts slot <= to_ts
               /\ forall b, In b (bookings d) ->
                            Booking.timeslot_id b = TimeSlot.id slot ->
                            Booking.status b = cancelled)
  /\ (forall e, value (getAvailableSlots (Some e) d staffId from_ts to_ts)
                = Thrown (ApiError.mk "ApiError" (PgError.message e) 400))
  /\ (forall link, final (getAvailableSlots link d staffId from_ts to_ts) = d).
Proof.
  split; [| split; [reflexivity | intros [e |]; reflexivity]].
  eexists. split; [reflexivity |]. intros slot.
  rewrite !filter_In, not_booked_iff, !andb_true_iff, negb_true_iff,
    Z.leb_le, Z.leb_le.
  assert (Hstaff : match staffId with
                   | Some i => if i =? 0 then true else TimeSlot.staff_id slot =? i
                   | None => true
                   end = true
                   <-> match staffId with
                       | Some i => i = 0 \/ TimeSlot.staff_id slot = i
                       | None => True
                       end).
  { destruct staffId as [i |]; [| tauto].
    destruct (i =? 0) eqn:Hi.
    - apply Z.eqb_eq in Hi. tauto.
    - apply Z.eqb_neq in Hi. rewrite Z.eqb_eq. tauto. }
  rewrite Hstaff.
  assert (Hemb : (forall b, In b (embedded_bookings d slot) ->
                            Booking.status b = cancelled)
                 <-> (forall b, In b (bookings d) ->
                                Booking.timeslot_id b = TimeSlot.id slot ->
                                Booking.status b = cancelled)).
  { unfold embedded_bookings. split.
    - intros H b Hb Hts. apply H. apply filter_In. split; [assumption |].
      now apply Z.eqb_eq.
    - intros H b Hb. apply filter_In in Hb. destruct Hb as [Hb Hts].
      apply Z.eqb_eq in Hts. now apply H. }
  rewrite Hemb. tauto.
Qed.

Lemma filter_filter_and {A : Type} (p q : A -> bool) (l : list A) :
  filter p (filter q l) = filter (fun x => q x && p x) l.
Proof.
  induction l as [| a l IH]; simpl; [reflexivity |].
  destruct (q a); simpl; [destruct (p a) |]; now rewrite IH.
Qed.

(** X6. After a claim that succeeded through the storage layer, the claimed
    timeslot is no longer offered, for whatever staff member and window the
    availability is asked; every other timeslot is offered exactly as
    before. *)
Theorem claimed_slot_is_no_longer_offered (uuid : string) (d : db)
    (bookingData : booking_data) (c : created)
    (Hclaim : value (createBooking FetchRejected None uuid d bookingData) = Returned c)
    (staffId : option Z) (from_ts to_ts : Z) :
  let d' := final (createBooking FetchRejected None uuid d bookingData) in
  exists before after,
    value (getAvailableSlots None d staffId from_ts to_ts) = Returned before
    /\ value (getAvailableSlots None d' staffId from_ts to_ts) = Returned after
    /\ after = filter (fun slot => negb (TimeSlot.id slot =? timeslotId bookingData))
                      before.
Proof.
  cbv zeta.
  destruct (createBooking_storage_cases uuid d bookingData)
    as [[b [Hins [Hv Hb]]] | [e [_ [Hv _]]]]; cbv zeta in Hv; [| congruence].
  cbv zeta in Hb.
  destruct (createBooking_storage_tables uuid d bookingData) as [_ [_ [Hts _]]].
  cbv zeta in Hts.
  apply insert_booking_inr_iff in Hins. destruct Hins as [-> _].
  remember (final (createBooking FetchRejected None uuid d bookingData)) as d' eqn:Hd'.
  unfold getAvailableSlots. cbn [value].
  eexists. eexists. split; [reflexivity |]. split; [reflexivity |].
  rewrite Hts, !filter_filter_and.
  apply filter_ext. intros slot.
  destruct (negb (TimeSlot.is_blocked slot)
            && match staffId with
               | Some i => if i =? 0 then true else TimeSlot.staff_id slot =? i
               | None => true
               end
            && (from_ts <=? TimeSlot.start_ts slot)
            && (TimeSlot.start_ts slot <=? to_ts)); simpl; [| reflexivity].
  unfold embedded_bookings. rewrite Hb, filter_app. simpl.
  rewrite (Z.eqb_sym (timeslotId bookingData)).
  destruct (TimeSlot.id slot =? timeslotId bookingData); simpl.
  - rewrite andb_false_r. unfold not_booked.
    rewrite forallb_app, length_app. simpl. rewrite andb_false_r, orb_false_r.
    apply Nat.eqb_neq. lia.
  - now rewrite app_nil_r, andb_true_r.
Qed.

Lemma claimed_slot_is_no_longer_offered_witness :
  exists before after,
    value (getAvailableSlots None Example.shop (Some 1) 6000 7000) = Returned before
    /\ value (getAvailableSlots None Example.after_alice (Some 1) 6000 7000)
       = Returned after
    /\ after = filter (fun slot => negb (TimeSlot.id slot =? 1)) before.
Proof.
  apply (claimed_slot_is_no_longer_offered Example.alice_token Example.shop
           Example.alice (mk_created (Some 1) (Some Example.alice_token))).
  reflexivity.
Defined.

(** ** More on the timeslot generator *)

Lemma insert_timeslot_appends (staff_id s e : Z) (d d' : db) :
  insert_timeslot staff_id s e d = inr d' ->
  exists added, timeslots d' = timeslots d ++ added.
Proof.
  unfold insert_timeslot.
  repeat match goal with |- context [if ?c then _ else _] => destruct c end;
    intros H; inversion H; subst; simpl.
  - exists []. now rewrite app_nil_r.
  - eexists. reflexivity.
Qed.

(** A run that completes only appends rows to [timeslots]. *)
Lemma generate_over_appends (today : Z) (days : list Z) (d d' : db) :
  generate_over today days d = inr d' ->
  exists added, timeslots d' = timeslots d ++ added.
Proof.
  intros H.
  apply (generate_over_preserves
           (fun x => exists added, timeslots x = timeslots d ++ added)) with (3 := H).
  - intros staff_id s e d0 d1 [l0 H0] Hi.
    apply insert_timeslot_appends in Hi. destruct Hi as [l1 H1].
    exists (l0 ++ l1). now rewrite H1, H0, app_assoc.
  - exists []. now rewrite app_nil_r.
Qed.

Lemma generate_over_other_tables (today : Z) (days : list Z) (d d' : db) :
  generate_over today days d = inr d' ->
  bookings d' = bookings d /\ staff d' = staff d /\ services d' = services d
  /\ bookings_id_seq d' = bookings_id_seq d.
Proof.
  intros H.
  apply (generate_over_preserves
           (fun x => bookings x = bookings d /\ staff x = staff d
                     /\ services x = services d
                     /\ bookings_id_seq x = bookings_id_seq d)) with (3 := H);
    [| auto].
  intros staff_id s e d0 d1 [H1 [H2 [H3 H4]]] Hi.
  apply insert_timeslot_other_tables in Hi. destruct Hi as [H5 [H6 [H7 H8]]].
  repeat split; congruence.
Qed.

(** The rows a sequence of insert statements adds: one per attempted key
    that was unused, with the content the statement gives it. *)
Lemma inserts_added (ks : list (Z * Z)) (d : db) :
  timeslot_ids_fresh d ->
  (forall k, In k ks -> has_staff d (fst k) = true) ->
  exists d' added,
    for_each insert_slot ks d = inr d'
    /\ timeslots d' = timeslots d ++ added
    /\ (forall c, In c (map TimeSlot.content added)
                  <-> exists k, In k ks
                                /\ ~ In k (map TimeSlot.key (timeslots d))
                                /\ c = slot_content k).
Proof.
  revert d. induction ks as [| k ks IH]; intros d Hfresh Hstaff.
  - exists d, []. simpl. rewrite app_nil_r. repeat split; auto.
    + intros [].
    + intros [k [[] _]].
  - destruct (insert_slot_sets k d Hfresh (Hstaff k (or_introl eq_refl)))
      as [d1 [Hrun1 [Hst1 [Hfr1 [Hkeys1 _]]]]].
    destruct (insert_slot_effect k d Hfresh (Hstaff k (or_introl eq_refl)))
      as [d1' [Hrun1' [_ [_ Hrows1]]]].
    assert (d1' = d1) by congruence. subst d1'.
    destruct (IH d1 Hfr1) as [d' [a2 [Hrun [Hrows Hcont]]]].
    { intros x Hx. rewrite (has_staff_same_table d d1 _ Hst1).
      apply Hstaff. now right. }
    set (row := TimeSlot.mk (timeslots_id_seq d) (fst k) (snd k) (snd k + 30) false)
      in *.
    exists d'.
    exists ((if existsb (same_key (fst k) (snd k)) (timeslots d) then [] else [row])
            ++ a2).
    simpl for_each. rewrite Hrun1. split; [exact Hrun |]. split.
    + rewrite Hrows, Hrows1.
      destruct (existsb (same_key (fst k) (snd k)) (timeslots d)); simpl;
        [reflexivity | now rewrite <- app_assoc].
    + intros c. rewrite map_app, in_app_iff, Hcont.
      assert (Hfirst : In c (map TimeSlot.content
                               (if existsb (same_key (fst k) (snd k)) (timeslots d)
                                then [] else [row]))
                       <-> ~ In k (map TimeSlot.key (timeslots d)) /\ c = slot_content k).
      { destruct (existsb (same_key (fst k) (snd k)) (timeslots d)) eqn:Hk.
        - apply same_key_In in Hk. rewrite <- surjective_pairing in Hk.
          simpl. tauto.
        - assert (Hnot : ~ In k (map TimeSlot.key (timeslots d))).
          { intros Hin. rewrite (surjective_pairing k) in Hin.
            apply same_key_In in Hin. congruence. }
          simpl. unfold slot_content, TimeSlot.content. simpl.
          split; [intros [<- | []]; auto | intros [_ ->]; auto]. }
      rewrite Hfirst. split.
      * intros [[Hn ->] | [k' [Hin [Hn ->]]]].
        -- exists k. simpl. auto.
        -- exists k'. simpl. repeat split; auto.
           intros Hk'. apply Hn. apply Hkeys1. now left.
      * intros [k' [[<- | Hin] [Hn ->]]]; [left; auto |].
        destruct (key_eq_dec k' k) as [-> | Hne]; [left; auto |].
        right. exists k'. repeat split; auto.
        intros Hk'. apply Hkeys1 in Hk'. destruct Hk' as [Hk' | Hk']; auto.
Qed.

(** The keys a run plans: an active staff member and one of the sixteen
    half hours of the date of the run, when that is a working day and the
    loop over the dates runs at all. *)
Lemma planned_spec (staff_ids : list Z) (today : Z) (days : list Z) (k : Z * Z) :
  In k (planned staff_ids today days)
  <-> In (fst k) staff_ids /\ days <> [] /\ dow today <> 0 /\ dow today <> 6
      /\ exists i, 0 <= i < 16 /\ snd k = today * 1440 + 540 + 30 * i.
Proof.
  rewrite planned_In. split.
  - intros [Hs [Hdays Ht]]. split; [assumption |]. split; [assumption |].
    destruct (Z.eq_dec (dow today) 0) as [H0 | H0];
      [rewrite day_starts_weekend in Ht by auto; destruct Ht |].
    destruct (Z.eq_dec (dow today) 6) as [H6 | H6];
      [rewrite day_starts_weekend in Ht by auto; destruct Ht |].
    apply day_starts_spec in Ht; [| assumption | assumption]. auto.
  - intros [Hs [Hdays [H0 [H6 Hi]]]]. split; [assumption |]. split; [assumption |].
    now apply day_starts_spec.
Qed.

(** A run of the loops on a state with fresh identifiers, spelled out: it
    completes, and the rows it appends are the planned slots whose key was
    unused. *)
Lemma generate_over_added (today : Z) (days : list Z) (d : db) :
  timeslot_ids_fresh d ->
  exists d' added,
    generate_over today days d = inr d'
    /\ timeslots d' = timeslots d ++ added
    /\ (forall c, In c (map TimeSlot.content added)
          <-> exists s i,
                In s (active_staff d) /\ days <> []
                /\ dow today <> 0 /\ dow today <> 6 /\ 0 <= i < 16
                /\ ~ In (s, today * 1440 + 540 + 30 * i) (map TimeSlot.key (timeslots d))
                /\ c = (s, today * 1440 + 540 + 30 * i,
                        today * 1440 + 570 + 30 * i, false)).
Proof.
  intros Hfresh. rewrite generate_over_as_inserts.
  destruct (inserts_added (planned (active_staff d) today days) d Hfresh)
    as [d' [added [Hrun [Hrows Hcont]]]].
  { intros k Hk. apply planned_In in Hk. destruct Hk as [Hk _].
    now apply active_staff_has_staff. }
  exists d', added. split; [exact Hrun |]. split; [exact Hrows |].
  intros c. rewrite Hcont. split.
  - intros [[s t] [Hk [Hn ->]]]. apply planned_spec in Hk. cbn [fst snd] in Hk.
    destruct Hk as [Hs [Hdays [H0 [H6 [i [Hi ->]]]]]].
    exists s, i. repeat split; auto; try lia.
    unfold slot_content. cbn [fst snd]. f_equal. f_equal. lia.
  - intros [s [i [Hs [Hdays [H0 [H6 [Hi [Hn ->]]]]]]]].
    exists (s, today * 1440 + 540 + 30 * i). split; [| split; [assumption |]].
    + apply planned_spec. cbn [fst snd]. repeat split; auto. exists i. auto.
    + unfold slot_content. cbn [fst snd]. f_equal. f_equal. lia.
Qed.

(** X7. What a run of the generator block adds, on a state whose
    identifiers come from the sequence. Where the server does not parse the
    assignment to [current_date], the run raises the syntax error and the
    database stays as it is. Where it does, the run completes and only
    appends rows: the existing timeslots (their blocked flags included),
    the bookings, the staff and the services stay as they are. It appends,
    for every active staff member, one unblocked 30-minute slot for each of
    the sixteen half hours from 9:00 to 16:30 of the date of the run whose
    (staff, start) is not there yet, provided that date is not a Saturday
    or a Sunday, and nothing else: no slot of any of the following dates. *)
Theorem generator_adds_the_slots_of_today (today : Z) (days : list Z) (d : db)
    (Hfresh : timeslot_ids_fresh d) :
  (run_block assignment_by_sql_grammar today days d = inl syntax_error
   /\ after_run assignment_by_sql_grammar today days d = d)
  /\ exists d' added,
       run_block assignment_by_plpgsql today days d = inr d'
       /\ after_run assignment_by_plpgsql today days d = d'
       /\ timeslots d' = timeslots d ++ added
       /\ bookings d' = bookings d /\ staff d' = staff d /\ services d' = services d
       /\ (forall c, In c (map TimeSlot.content added)
             <-> exists s i,
                   In s (active_staff d) /\ days <> []
                   /\ dow today <> 0 /\ dow today <> 6 /\ 0 <= i < 16
                   /\ ~ In (s, today * 1440 + 540 + 30 * i)
                          (map TimeSlot.key (timeslots d))
                   /\ c = (s, today * 1440 + 540 + 30 * i,
                           today * 1440 + 570 + 30 * i, false)).
Proof.
  split; [split; reflexivity |].
  destruct (generate_over_added today days d Hfresh) as [d' [added [Hrun [Hrows Hcont]]]].
  destruct (generate_over_other_tables today days d d' Hrun) as [Hb [Hst [Hsv _]]].
  exists d', added. unfold after_run, run_block. rewrite Hrun. auto 10.
Qed.

Lemma generator_adds_the_slots_of_today_witness :
  exists d' added,
    generate_timeslots assignment_by_plpgsql 4 Example.shop = inr d'
    /\ after_run assignment_by_plpgsql 4 (horizon 4) Example.shop = d'
    /\ timeslots d' = timeslots Example.shop ++ added
    /\ bookings d' = bookings Example.shop /\ staff d' = staff Example.shop
    /\ services d' = services Example.shop
    /\ (forall c, In c (map TimeSlot.content added)
          <-> exists s i,
                In s (active_staff Example.shop) /\ horizon 4 <> []
                /\ dow 4 <> 0 /\ dow 4 <> 6 /\ 0 <= i < 16
                /\ ~ In (s, 4 * 1440 + 540 + 30 * i)
                       (map TimeSlot.key (timeslots Example.shop))
                /\ c = (s, 4 * 1440 + 540 + 30 * i, 4 * 1440 + 570 + 30 * i, false)).
Proof.
  apply (generator_adds_the_slots_of_today 4 (horizon 4) Example.shop).
  intros t Ht. simpl in Ht.
  destruct Ht as [<- | [<- | [<- | []]]]; simpl; lia.
Defined.

Lemma unique_key_same_row (l : list TimeSlot.t) (t1 t2 : TimeSlot.t) :
  NoDup (map TimeSlot.key l) -> In t1 l -> In t2 l ->
  TimeSlot.key t1 = TimeSlot.key t2 -> t1 = t2.
Proof.
  induction l as [| a l IH]; intros Hnd H1 H2 Heq; [destruct H1 |].
  simpl in Hnd. inversion Hnd as [| ? ? Hnotin Hnd']; subst.
  destruct H1 as [-> | H1], H2 as [-> | H2].
  - reflexivity.
  - exfalso. apply Hnotin. rewrite Heq. now apply in_map.
  - exfalso. apply Hnotin. rewrite <- Heq. now apply in_map.
  - now apply IH.
Qed.

(** X8. The slots a completed run of the block appends are well placed:
    each is unblocked, lasts 30 minutes and lies between 9:00 and 17:00 of
    the date of the run, which is then a working day, and two different
    appended slots of one staff member never overlap. *)
Theorem generated_slots_do_not_overlap (today : Z) (days : list Z) (d : db)
    (Hfresh : timeslot_ids_fresh d) (Hkey : unique_slot_key d) :
  exists d' added,
    run_block assignment_by_plpgsql today days d = inr d'
    /\ timeslots d' = timeslots d ++ added
    /\ (forall t, In t added ->
          TimeSlot.is_blocked t = false
          /\ TimeSlot.end_ts t = TimeSlot.start_ts t + 30
          /\ dow today <> 0 /\ dow today <> 6
          /\ today * 1440 + 9 * 60 <= TimeSlot.start_ts t
          /\ TimeSlot.end_ts t <= today * 1440 + 17 * 60)
    /\ (forall t1 t2, In t1 added -> In t2 added ->
          TimeSlot.staff_id t1 = TimeSlot.staff_id t2 -> t1 <> t2 ->
          TimeSlot.end_ts t1 <= TimeSlot.start_ts t2
          \/ TimeSlot.end_ts t2 <= TimeSlot.start_ts t1).
Proof.
  unfold run_block.
  destruct (generate_over_added today days d Hfresh) as [d' [added [Hrun [Hrows Hcont]]]].
  destruct (generate_over_effect today days d Hfresh)
    as [d2 [Hrun2 [_ [_ [_ [_ Hnd]]]]]].
  assert (d2 = d') by congruence. subst d2. specialize (Hnd Hkey).
  assert (Hshape : forall t, In t added ->
            exists i, dow today <> 0 /\ dow today <> 6 /\ 0 <= i < 16
                      /\ TimeSlot.start_ts t = today * 1440 + 540 + 30 * i
                      /\ TimeSlot.end_ts t = today * 1440 + 570 + 30 * i
                      /\ TimeSlot.is_blocked t = false).
  { intros t Ht.
    assert (Hc : In (TimeSlot.content t) (map TimeSlot.content added))
      by now apply in_map.
    apply Hcont in Hc. destruct Hc as [s [i [_ [_ [H0 [H6 [Hi [_ Heq]]]]]]]].
    unfold TimeSlot.content in Heq. inversion Heq. exists i. auto 10. }
  exists d', added. split; [exact Hrun |]. split; [exact Hrows |]. split.
  - intros t Ht. destruct (Hshape t Ht) as [i [H0 [H6 [Hi [Hs [He Hb]]]]]].
    split; [exact Hb |]. split; [lia |]. repeat split; auto; lia.
  - intros t1 t2 H1 H2 Hstaff Hne.
    destruct (Hshape t1 H1) as [i1 [_ [_ [Hi1 [Hs1 [He1 _]]]]]].
    destruct (Hshape t2 H2) as [i2 [_ [_ [Hi2 [Hs2 [He2 _]]]]]].
    destruct (Z.eq_dec (TimeSlot.start_ts t1) (TimeSlot.start_ts t2)) as [Hsame | Hdiff].
    + exfalso. apply Hne.
      apply (unique_key_same_row (timeslots d') t1 t2 Hnd).
      * rewrite Hrows. apply in_or_app. now right.
      * rewrite Hrows. apply in_or_app. now right.
      * unfold TimeSlot.key. congruence.
    + lia.
Qed.

Lemma generated_slots_do_not_overlap_witness :
  exists d' added,
    generate_timeslots assignment_by_plpgsql 4 Example.shop = inr d'
    /\ timeslots d' = timeslots Example.shop ++ added
    /\ (forall t, In t added ->
          TimeSlot.is_blocked t = false
          /\ TimeSlot.end_ts t = TimeSlot.start_ts t + 30
          /\ dow 4 <> 0 /\ dow 4 <> 6
          /\ 4 * 1440 + 9 * 60 <= TimeSlot.start_ts t
          /\ TimeSlot.end_ts t <= 4 * 1440 + 17 * 60)
    /\ (forall t1 t2, In t1 added -> In t2 added ->
          TimeSlot.staff_id t1 = TimeSlot.staff_id t2 -> t1 <> t2 ->
          TimeSlot.end_ts t1 <= TimeSlot.start_ts t2
          \/ TimeSlot.end_ts t2 <= TimeSlot.start_ts t1).
Proof.
  apply (generated_slots_do_not_overlap 4 (horizon 4) Example.shop).
  - intros t Ht. simpl in Ht.
    destruct Ht as [<- | [<- | [<- | []]]]; simpl; lia.
  - unfold unique_slot_key. simpl.
    repeat constructor; simpl; intuition discriminate.
Defined.

(** ** Invariants of the whole system *)

Lemma createBooking_other_tables (f : fetch_result) (link : option PgError.t)
    (uuid : string) (d : db) (bookingData : booking_data) :
  let r := createBooking f link uuid d bookingData in
  services (final r) = services d /\ staff (final r) = staff d
  /\ timeslots (final r) = timeslots d
  /\ timeslots_id_seq (final r) = timeslots_id_seq d.
Proof.
  assert (Hfb : forall l,
             services (final (createBooking_fallback l uuid d bookingData)) = services d
             /\ staff (final (createBooking_fallback l uuid d bookingData)) = staff d
             /\ timeslots (final (createBooking_fallback l uuid d bookingData))
                = timeslots d
             /\ timeslots_id_seq (final (createBooking_fallback l uuid d bookingData))
                = timeslots_id_seq d).
  { intros l. unfold createBooking_fallback, insert_booking.
    destruct l; [simpl; auto |].
    repeat match goal with |- context [if ?c then _ else _] => destruct c end;
      simpl; auto. }
  cbv zeta. unfold createBooking. destruct f as [| r]; [apply Hfb |].
  destruct (response_ok r); [| apply Hfb].
  destruct (body r); [apply Hfb | simpl; auto].
Qed.

Lemma createBooking_bookings (f : fetch_result) (link : option PgError.t)
    (uuid : string) (d : db) (bookingData : booking_data) :
  let r := createBooking f link uuid d bookingData in
  bookings (final r) = bookings d
  \/ exists b, fst (insert_booking uuid (to_insert bookingData) d) = inr b
               /\ bookings (final r) = bookings d ++ [b].
Proof.
  assert (Hfb : bookings (final (createBooking_fallback link uuid d bookingData))
                = bookings d
                \/ exists b, fst (insert_booking uuid (to_insert bookingData) d) = inr b
                             /\ bookings (final (createBooking_fallback link uuid d
                                                   bookingData))
                                = bookings d ++ [b]).
  { destruct link as [e |]; [left; reflexivity |].
    destruct (createBooking_storage_cases uuid d bookingData)
      as [[b [Hins [_ Hb]]] | [e [_ [_ Hb]]]]; cbv zeta in Hb.
    - right. exists b. auto.
    - left. exact Hb. }
  cbv zeta. unfold createBooking. destruct f as [| r]; [exact Hfb |].
  destruct (response_ok r); [| exact Hfb].
  destruct (body r); [exact Hfb | left; reflexivity].
Qed.

Lemma step_timeslots (d : db) (o : operation) :
  timeslot_ids_fresh d -> unique_slot_key d ->
  (exists added, timeslots (step d o) = timeslots d ++ added)
  /\ unique_slot_key (step d o) /\ timeslot_ids_fresh (step d o)
  /\ staff (step d o) = staff d /\ services (step d o) = services d.
Proof.
  intros Hfresh Hkey.
  assert (Hsame : forall d', timeslots d' = timeslots d ->
                             timeslots_id_seq d' = timeslots_id_seq d ->
                             staff d' = staff d -> services d' = services d ->
            (exists added, timeslots d' = timeslots d ++ added)
            /\ unique_slot_key d' /\ timeslot_ids_fresh d'
            /\ staff d' = staff d /\ services d' = services d).
  { intros d' Ht Hs Hst Hsv. unfold unique_slot_key, timeslot_ids_fresh.
    rewrite Ht, Hs. repeat split; auto. exists []. now rewrite app_nil_r. }
  destruct o as [f link uuid bd | link i tok | link i tok | i st | v today].
  - destruct (createBooking_other_tables f link uuid d bd) as [H1 [H2 [H3 H4]]].
    apply Hsame; assumption.
  - cbn [step]. rewrite getBooking_final. apply Hsame; reflexivity.
  - cbn [step]. rewrite cancelBooking_final. apply Hsame; reflexivity.
  - apply Hsame; reflexivity.
  - unfold step, generate_timeslots, run_block.
    destruct v; [| apply Hsame; reflexivity].
    destruct (generate_over_effect today (horizon today) d Hfresh)
      as [d' [Hrun [Hst [Hfr [_ [_ Hnd]]]]]].
    rewrite Hrun.
    destruct (generate_over_other_tables _ _ _ _ Hrun) as [_ [_ [Hsv _]]].
    split; [now apply (generate_over_appends today (horizon today)) |]. auto.
Qed.

(** X9. Through any sequence of operations of the system (claims, lookups,
    releases, status changes, generator runs) the timeslot table only
    grows: every row that was there is still there, unchanged and in its
    place. The key (staff_id, start_ts) stays unique, identifiers stay
    below the sequence, and the staff and service tables are not touched. *)
Theorem timeslots_only_grow (ops : list operation) (d : db)
    (Hfresh : timeslot_ids_fresh d) (Hkey : unique_slot_key d) :
  (exists added, timeslots (run_all d ops) = timeslots d ++ added)
  /\ unique_slot_key (run_all d ops) /\ timeslot_ids_fresh (run_all d ops)
  /\ staff (run_all d ops) = staff d /\ services (run_all d ops) = services d.
Proof.
  revert d Hfresh Hkey. induction ops as [| o ops IH]; intros d Hfresh Hkey.
  - simpl. repeat split; auto. exists []. now rewrite app_nil_r.
  - destruct (step_timeslots d o Hfresh Hkey) as [[a1 H1] [Hk1 [Hf1 [Hs1 Hv1]]]].
    destruct (IH (step d o) Hf1 Hk1) as [[a2 H2] [Hk2 [Hf2 [Hs2 Hv2]]]].
    change (run_all d (o :: ops)) with (run_all (step d o) ops).
    repeat split; auto; try congruence.
    exists (a1 ++ a2). now rewrite H2, H1, app_assoc.
Qed.

Lemma timeslots_only_grow_witness :
  exists added,
    timeslots (run_all Example.shop
                 [Example.claim_alice; Generate assignment_by_plpgsql 4;
                  Release None 1 Example.alice_token])
    = timeslots Example.shop ++ added.
Proof.
  apply (timeslots_only_grow
           [Example.claim_alice; Generate assignment_by_plpgsql 4;
            Release None 1 Example.alice_token]
           Example.shop).
  - intros t Ht. simpl in Ht.
    destruct Ht as [<- | [<- | [<- | []]]]; simpl; lia.
  - unfold unique_slot_key. simpl.
    repeat constructor; simpl; intuition discriminate.
Defined.

Lemma has_timeslot_app (d d' : db) (added : list TimeSlot.t) (i : Z) :
  timeslots d' = timeslots d ++ added ->
  has_timeslot d i = true -> has_timeslot d' i = true.
Proof.
  unfold has_timeslot. intros -> H. rewrite existsb_app, H. reflexivity.
Qed.

Lemma step_keeps_references (d : db) (o : operation) :
  references_valid d -> references_valid (step d o).
Proof.
  intros Hval.
  assert (Hsame : forall d', services d' = services d -> staff d' = staff d ->
                             timeslots d' = timeslots d ->
                             (forall b, In b (bookings d') ->
                                exists x st, In x (bookings d)
                                             /\ b = Booking.set_status st x) ->
                             references_valid d').
  { intros d' Hsv Hst Hts Hrows b Hb.
    destruct (Hrows b Hb) as [x [st [Hx ->]]].
    unfold has_service, has_staff, has_timeslot. rewrite Hsv, Hst, Hts.
    apply (Hval x Hx). }
  assert (Hmap : forall (p : Booking.t -> bool) st b,
             In b (map (fun x => if p x then Booking.set_status st x else x) (bookings d)) ->
             exists x st', In x (bookings d) /\ b = Booking.set_status st' x).
  { intros p st b Hb. apply in_map_iff in Hb. destruct Hb as [x [<- Hx]].
    destruct (p x).
    - exists x, st. auto.
    - exists x, (Booking.status x). split; [assumption |].
      symmetry. apply set_status_same. }
  assert (Hid : forall b, In b (bookings d) ->
                          exists x st', In x (bookings d) /\ b = Booking.set_status st' x).
  { intros b Hb. exists b, (Booking.status b). split; [assumption |].
    symmetry. apply set_status_same. }
  destruct o as [f link uuid bd | link i tok | link i tok | i st | v today].
  - unfold step.
    destruct (createBooking_other_tables f link uuid d bd) as [H1 [H2 [H3 _]]].
    cbv zeta in H1, H2, H3.
    destruct (createBooking_bookings f link uuid d bd) as [Hb | [b [Hins Hb]]];
      cbv zeta in Hb.
    + apply Hsame; auto. rewrite Hb. exact Hid.
    + intros x Hx. rewrite Hb in Hx.
      unfold has_service, has_staff, has_timeslot. rewrite H1, H2, H3.
      apply in_app_or in Hx. destruct Hx as [Hx | [<- | []]]; [apply (Hval x Hx) |].
      apply insert_booking_inr_iff in Hins.
      destruct Hins as [-> [_ [_ [Hs [Hst Ht]]]]]. simpl. auto.
  - cbn [step]. rewrite getBooking_final. exact Hval.
  - cbn [step]. rewrite cancelBooking_final. exact Hval.
  - apply Hsame; try reflexivity. apply Hmap.
  - unfold step, generate_timeslots, run_block.
    destruct v; [| exact Hval].
    destruct (generate_over today (horizon today) d) as [e | d'] eqn:Hrun;
      [exact Hval |].
    destruct (generate_over_other_tables _ _ _ _ Hrun) as [Hb [Hst [Hsv _]]].
    destruct (generate_over_appends _ _ _ _ Hrun) as [added Hts].
    intros b Hin. rewrite Hb in Hin. destruct (Hval b Hin) as [H1 [H2 H3]].
    unfold has_service, has_staff. rewrite Hsv, Hst.
    split; [exact H1 |]. split; [exact H2 |].
    now apply (has_timeslot_app d d' added).
Qed.

(** X10. In every reachable state every booking references an existing
    service, an existing staff member and an existing timeslot: a claim
    that names a missing one is rejected by the storage layer, and no
    operation removes a service, a staff member or a timeslot. *)
Theorem references_stay_valid (d : db) (Hreach : reachable d) :
  references_valid d
  /\ forall uuid bookingData,
       has_service d (serviceId bookingData) && has_staff d (staffId bookingData)
       && has_timeslot d (timeslotId bookingData) = false ->
       exists e, value (createBooking FetchRejected None uuid d bookingData) = Thrown e
                 /\ bookings (final (createBooking FetchRejected None uuid d bookingData))
                    = bookings d.
Proof.
  split.
  - induction Hreach as [d H0 | d o _ IH].
    + intros b Hb. rewrite H0 in Hb. destruct Hb.
    + now apply step_keeps_references.
  - intros uuid bd Hmiss.
    destruct (createBooking_storage_cases uuid d bd)
      as [[b [Hins _]] | [e [_ [Hv Hb]]]].
    + apply insert_booking_inr_iff in Hins.
      destruct Hins as [_ [_ [_ [Hs [Hst Ht]]]]]. simpl in Hs, Hst, Ht.
      rewrite Hs, Hst, Ht in Hmiss. discriminate.
    + eexists. split; [exact Hv | exact Hb].
Qed.

Lemma references_stay_valid_witness : references_valid Example.after_cancel.
Proof.
  apply (references_stay_valid Example.after_cancel).
  unfold Example.after_cancel, Example.after_alice.
  apply reachable_step. apply reachable_step. apply reachable_init. reflexivity.
Defined.

(** ** Validation and the handler *)

(** Boolean comparisons in the context, as the order facts they decide. *)
Ltac comparisons_to_props :=
  repeat match goal with
         | H : (_ <? _) = true |- _ => apply Z.ltb_lt in H
         | H : (_ <? _) = false |- _ => apply Z.ltb_ge in H
         | H : Nat.ltb _ _ = true |- _ => apply Nat.ltb_lt in H
         | H : Nat.ltb _ _ = false |- _ => apply Nat.ltb_ge in H
         end.

(** X11. Which requests [BookingSchema] accepts, and what it reports: a
    request as sent by [createBooking] has no issue exactly when the three
    identifiers are positive, the name has 2 to 100 characters, the address
    passes the e-mail test and the notes, when given, have at most 500
    characters (the phone number is never checked). Otherwise the issues
    name exactly the offending properties, one issue each, in schema order. *)
Theorem schema_names_the_offending_fields (is_email : string -> bool)
    (bookingData : booking_data) :
  map path (schema_issues is_email (to_json bookingData))
  = map (fun field => [field]) (offending_fields is_email bookingData)
  /\ (schema_issues is_email (to_json bookingData) = []
      <-> 0 < serviceId bookingData /\ 0 < staffId bookingData
          /\ 0 < timeslotId bookingData
          /\ (2 <= String.length (customerName bookingData) <= 100)%nat
          /\ is_email (customerEmail bookingData) = true
          /\ forall s, notes bookingData = Some s -> (String.length s <= 500)%nat).
Proof.
  destruct bookingData as [sv st ts name email phone nt].
  unfold schema_issues, offending_fields, to_json, check_positive, check_name,
    check_email, check_optional_string, check_notes, optional_string.
  cbn [q_serviceId q_staffId q_timeslotId q_customerName q_customerEmail
       q_customerPhone q_notes serviceId staffId timeslotId customerName
       customerEmail customerPhone notes].
  rewrite (Z.leb_antisym 0 sv), (Z.leb_antisym 0 st), (Z.leb_antisym 0 ts).
  assert (Hlen : Nat.ltb (String.length name) 2 && Nat.ltb 100 (String.length name)
                 = false).
  { destruct (Nat.ltb (String.length name) 2) eqn:Ha; [| reflexivity].
    apply Nat.ltb_lt in Ha. apply Nat.ltb_ge. lia. }
  destruct (0 <? sv) eqn:H1; destruct (0 <? st) eqn:H2; destruct (0 <? ts) eqn:H3;
    destruct (Nat.ltb (String.length name) 2) eqn:H4;
    destruct (Nat.ltb 100 (String.length name)) eqn:H5; try discriminate Hlen;
    destruct (is_email email) eqn:H6;
    destruct phone as [ph |];
    destruct nt as [s |]; try destruct (Nat.ltb 500 (String.length s)) eqn:H7;
    cbn [negb orb app map path];
    (split; [reflexivity |]);
    comparisons_to_props;
    (split;
     [ try discriminate; intros _; repeat split; auto; try lia;
       intros s' Hs'; try discriminate; inversion Hs'; subst; lia
     | intros [G1 [G2 [G3 [G4 [G5 G6]]]]]; try reflexivity; exfalso;
       try lia; try discriminate;
       try (specialize (G6 _ eq_refl); lia) ]).
Qed.

(** X12. The form's schema and the handler's schema agree except on long
    names: whatever the handler accepts the form accepts, and a request the
    form accepts has, for the handler, no issue when the name has at most
    100 characters and the single issue [too_big] on [customerName]
    otherwise. *)
Theorem form_and_handler_schemas (is_email : string -> bool)
    (bookingData : booking_data) :
  (schema_issues is_email (to_json bookingData) = [] ->
   form_issues is_email (to_json bookingData) = [])
  /\ (form_issues is_email (to_json bookingData) = [] ->
      schema_issues is_email (to_json bookingData)
      = if Nat.ltb 100 (String.length (customerName bookingData))
        then [mk_issue too_big ["customerName"]] else []).
Proof.
  split; [apply form_schema_is_weaker |].
  destruct bookingData as [sv st ts name email phone nt].
  unfold schema_issues, form_issues, to_json, check_positive, check_name,
    check_form_name, check_email, check_optional_string, check_notes, optional_string.
  cbn [q_serviceId q_staffId q_timeslotId q_customerName q_customerEmail
       q_customerPhone q_notes serviceId staffId timeslotId customerName
       customerEmail customerPhone notes].
  destruct (0 <? sv); [| intros H; cbn [app] in H; discriminate H].
  destruct (0 <? st); [| intros H; cbn [app] in H; discriminate H].
  destruct (0 <? ts); [| intros H; cbn [app] in H; discriminate H].
  destruct (Nat.ltb (String.length name) 2); [intros H; cbn [app] in H; discriminate H |].
  destruct (is_email email); [| intros H; cbn [app] in H; discriminate H].
  destruct phone as [ph |]; destruct nt as [s |];
    try (destruct (Nat.ltb 500 (String.length s)); [intros H; cbn [app] in H; discriminate H |]);
    intros _; destruct (Nat.ltb 100 (String.length name)); reflexivity.
Qed.

Lemma check_positive_nil (field : string) (v : jval) :
  check_positive field v = [] -> exists n, v = JNumber n.
Proof. destruct v; simpl; try discriminate. eauto. Qed.

Lemma check_optional_typed (v : jval) :
  v = JUndefined \/ (exists s, v = JString s) ->
  optional_string (as_optional v) = v.
Proof. intros [-> | [s ->]]; reflexivity. Qed.

(** X13. Validation hands the request through unchanged: for a request
    without issue, [BookingSchema.parse] returns exactly the data that was
    sent; whatever data it returns serializes back to the request object it
    was given; and when it throws, the issues are the schema's and there is
    at least one. *)
Theorem validated_data_is_the_request (is_email : string -> bool) :
  (forall bookingData,
      schema_issues is_email (to_json bookingData) = [] ->
      BookingSchema_parse is_email (to_json bookingData) = inr bookingData)
  /\ (forall o bookingData,
        BookingSchema_parse is_email o = inr bookingData ->
        to_json bookingData = o /\ schema_issues is_email o = [])
  /\ (forall o issues,
        BookingSchema_parse is_email o = inl issues ->
        issues = schema_issues is_email o /\ issues <> []).
Proof.
  split; [| split].
  - intros bd H. unfold BookingSchema_parse. rewrite H.
    destruct bd as [sv st ts name email phone nt].
    destruct phone, nt; reflexivity.
  - intros o bd H. unfold BookingSchema_parse in H.
    destruct (schema_issues is_email o) eqn:Hiss; [| discriminate].
    split; [| reflexivity]. inversion H; subst bd. clear H.
    unfold schema_issues in Hiss.
    apply app_eq_nil in Hiss. destruct Hiss as [H1 Hiss].
    apply app_eq_nil in Hiss. destruct Hiss as [H2 Hiss].
    apply app_eq_nil in Hiss. destruct Hiss as [H3 Hiss].
    apply app_eq_nil in Hiss. destruct Hiss as [H4 Hiss].
    apply app_eq_nil in Hiss. destruct Hiss as [H5 Hiss].
    apply app_eq_nil in Hiss. destruct Hiss as [H6 H7].
    apply check_positive_nil in H1, H2, H3.
    destruct H1 as [n1 E1], H2 as [n2 E2], H3 as [n3 E3].
    destruct o as [v1 v2 v3 v4 v5 v6 v7]. simpl in *. subst v1 v2 v3.
    unfold to_json. simpl.
    destruct v4 as [| n | nm |]; try discriminate.
    destruct v5 as [| n | em |]; try discriminate.
    destruct v6 as [| n | ph |]; try discriminate;
      destruct v7 as [| n | s |]; try discriminate; reflexivity.
  - intros o issues H. unfold BookingSchema_parse in H.
    destruct (schema_issues is_email o) eqn:Hiss; [discriminate |].
    inversion H; subst. split; [reflexivity | discriminate].
Qed.

(** X14. What the handler answers, for every request: the status is 200,
    400, 405 or 500; the answer carries a booking identifier exactly when
    the method is POST and the body is an object without schema issue, and
    then it is the mock success; a 400 always carries a non-empty list of
    issues; a missing or empty body is answered 400, a body that is not
    JSON 500, and a method other than POST and OPTIONS 405. *)
Theorem handler_answers (is_email : string -> bool) (mockBookingId : Z)
    (random36 : string) (ev : event) :
  let answer := handler is_email mockBookingId random36 ev in
  (statusCode answer = 200 \/ statusCode answer = 400
   \/ statusCode answer = 405 \/ statusCode answer = 500)
  /\ ((exists j i, body answer = JsonBody j /\ j_bookingId j = Some i)
      <-> httpMethod ev = "POST"
          /\ exists o, event_body ev = ObjectBody o /\ schema_issues is_email o = [])
  /\ (httpMethod ev = "POST" ->
      (forall o, event_body ev = ObjectBody o -> schema_issues is_email o = [] ->
                 answer = mock_success mockBookingId (String.append "cancel-" random36))
      /\ (event_body ev = NoBody -> statusCode answer = 400)
      /\ (event_body ev = MalformedBody -> statusCode answer = 500))
  /\ (statusCode answer = 400 ->
      exists issues, issues <> []
                     /\ body answer = json_error "Invalid data" (Some issues))
  /\ (httpMethod ev <> "POST" -> httpMethod ev <> "OPTIONS" ->
      statusCode answer = 405).
Proof.
  cbv zeta. unfold handler, BookingSchema_parse.
  destruct ev as [method bd]. cbn [httpMethod event_body].
  destruct (String.eqb method "OPTIONS") eqn:Hopt.
  { apply String.eqb_eq in Hopt. subst method. simpl.
    split; [auto |]. split; [| split; [| split]]; try discriminate.
    - split; [intros [j [i [H _]]]; discriminate | intros [H _]; discriminate].
    - intros H1 H2. congruence. }
  destruct (String.eqb method "POST") eqn:Hpost; cbn [negb].
  2:{ apply String.eqb_neq in Hpost. simpl.
      split; [auto |]. split; [| split; [| split]];
        try discriminate; try contradiction; auto.
      split; [intros [j [i [H Hi]]]; inversion H; subst; discriminate
             | intros [H _]; contradiction]. }
  apply String.eqb_eq in Hpost. subst method.
  assert (Hempty : exists i l, schema_issues is_email empty_object = i :: l)
    by (eexists; eexists; reflexivity).
  destruct bd as [| | | o].
  - destruct Hempty as [i0 [l0 ->]]. simpl.
    split; [auto |]. split; [| split; [| split]]; try discriminate; auto.
    + split; [intros [j [i [H Hi]]]; inversion H; subst; discriminate
             | intros [_ [o [H _]]]; discriminate].
    + intros _. repeat split; auto; discriminate.
    + intros _. eexists. split; [| reflexivity]. discriminate.
    + intros H. congruence.
  - simpl. split; [auto |]. split; [| split; [| split]];
      try discriminate; auto.
    + split; [intros [j [i [H Hi]]]; inversion H; subst; discriminate
             | intros [_ [o [H _]]]; discriminate].
    + intros _. repeat split; auto; discriminate.
    + intros H. congruence.
  - simpl. split; [auto |]. split; [| split; [| split]];
      try discriminate; auto.
    + split; [intros [j [i [H Hi]]]; inversion H; subst; discriminate
             | intros [_ [o [H _]]]; discriminate].
    + intros _. repeat split; auto; discriminate.
    + intros _. eexists. split; [| reflexivity]. discriminate.
    + intros H. congruence.
  - destruct (schema_issues is_email o) as [| i0 l0] eqn:Hiss; simpl.
    + split; [auto |]. split; [| split; [| split]]; try discriminate.
      * split; [intros _; split; [reflexivity | exists o; auto]
               | intros _; eexists; eexists; split; reflexivity].
      * intros _. repeat split; auto; discriminate.
      * intros H. congruence.
    + split; [auto |]. split; [| split; [| split]]; try discriminate.
      * split; [intros [j [i [H Hi]]]; inversion H; subst; discriminate
               | intros [_ [o' [H H']]]; inversion H; subst; congruence].
      * intros _. repeat split; try discriminate.
        intros o' H H'. inversion H; subst. congruence.
      * intros _. eexists. split; [| reflexivity]. discriminate.
      * intros H. congruence.
Qed.

(** ** Displayed durations *)

(** What may follow a printed number for the cut to fall right after it. *)
Lemma split_number_uint (d : Decimal.uint) (rest : string) :
  match rest with
  | EmptyString => True
  | String c _ => is_number_char c = false
  end ->
  split_number (String.append (NilEmpty.string_of_uint d) rest)
  = (NilEmpty.string_of_uint d, rest).
Proof.
  intros Hrest. induction d as [| d IH | d IH | d IH | d IH | d IH | d IH
                                | d IH | d IH | d IH | d IH];
    simpl; try (rewrite IH; reflexivity).
  destruct rest as [| c rest]; [reflexivity |]. simpl. now rewrite Hrest.
Qed.

Lemma split_number_printed (n : Z) (rest : string) :
  match rest with
  | EmptyString => True
  | String c _ => is_number_char c = false
  end ->
  split_number (String.append (number_to_string n) rest) = (number_to_string n, rest).
Proof.
  intros Hrest. unfold number_to_string, NilZero.string_of_int, NilZero.string_of_uint.
  destruct (Z.to_int n) as [d | d]; destruct d;
    try (simpl; rewrite split_number_uint by assumption; reflexivity).
  - simpl. destruct rest as [| c rest]; [reflexivity |]. simpl. now rewrite Hrest.
  - simpl. destruct rest as [| c rest]; [reflexivity |]. simpl. now rewrite Hrest.
Qed.

Lemma number_to_string_inj (n n' : Z) :
  number_to_string n = number_to_string n' -> n = n'.
Proof.
  unfold number_to_string. intros H.
  assert (Hnn : forall z, Z.to_int z <> Decimal.Pos Decimal.Nil
                          /\ Z.to_int z <> Decimal.Neg Decimal.Nil).
  { intros z. destruct z as [| p | p]; simpl; split; try discriminate;
      intros Heq; inversion Heq as [Hp];
      now apply DecimalPos.Unsigned.to_uint_nonnil in Hp. }
  apply DecimalZ.to_int_inj.
  assert (Hs : Some (Z.to_int n) = Some (Z.to_int n')).
  { rewrite <- (NilZero.isi (Z.to_int n)) by apply Hnn.
    rewrite <- (NilZero.isi (Z.to_int n')) by apply Hnn.
    now rewrite H. }
  now inversion Hs.
Qed.

(** Two printed numbers followed by texts that do not start with a number
    character: equal wholes have equal parts. *)
Lemma printed_number_prefix (n n' : Z) (rest rest' : string) :
  match rest with
  | EmptyString => True
  | String c _ => is_number_char c = false
  end ->
  match rest' with
  | EmptyString => True
  | String c _ => is_number_char c = false
  end ->
  String.append (number_to_string n) rest = String.append (number_to_string n') rest' ->
  n = n' /\ rest = rest'.
Proof.
  intros Hr Hr' Heq.
  pose proof (split_number_printed n rest Hr) as H1.
  pose proof (split_number_printed n' rest' Hr') as H2.
  rewrite Heq, H2 in H1. inversion H1 as [[Hn Hrest]].
  split; [now apply number_to_string_inj | reflexivity].
Qed.

(** X15. [formatDuration] never shows two different durations the same
    way: from the text one can tell the number of minutes. *)
Theorem formatDuration_injective (minutes minutes' : Z)
    (Hsame : formatDuration minutes = formatDuration minutes') :
  minutes = minutes'.
Proof.
  unfold formatDuration in Hsame.
  pose proof (Z.div_mod minutes 60 ltac:(lia)) as Hm.
  pose proof (Z.div_mod minutes' 60 ltac:(lia)) as Hm'.
  pose proof (Z.mod_pos_bound minutes 60 ltac:(lia)) as Hb.
  pose proof (Z.mod_pos_bound minutes' 60 ltac:(lia)) as Hb'.
  destruct (minutes <? 60) eqn:H1; destruct (minutes' <? 60) eqn:H1';
    try destruct (0 <? minutes mod 60) eqn:H2;
    try destruct (0 <? minutes' mod 60) eqn:H2';
    comparisons_to_props;
    apply printed_number_prefix in Hsame; try exact I; try reflexivity;
    destruct Hsame as [Hn Hrest]; try discriminate Hrest; try assumption.
  - inversion Hrest as [Hr].
    apply (printed_number_prefix _ _ "m" "m") in Hr; try reflexivity.
    destruct Hr as [Hr _]. congruence.
  - lia.
Qed.

Lemma formatDuration_injective_witness : 90 = 60 + 30.
Proof.
  apply (formatDuration_injective 90 (60 + 30)). reflexivity.
Defined.

(** The three shapes of the text. *)
Example formatDuration_shapes :
  formatDuration 30 = "30 min" /\ formatDuration 60 = "1h"
  /\ formatDuration 90 = "1h 30m" /\ formatDuration 240 = "4h".
Proof. repeat split. Qed.

(** ** Availability of a timeslot whose booking is cancelled *)

(** X16. The availability query and the unique constraint disagree about
    a cancelled booking. A timeslot whose booking is cancelled is offered
    by [getAvailableSlots] whenever it is unblocked and inside what is asked
    for, given that no other booking references it (the unique constraint
    on [timeslot_id]); yet every claim on it that reaches the storage layer
    is rejected as a slot conflict and stores nothing. *)
Theorem cancelled_slot_is_offered_but_taken (d : db) (b : Booking.t) (slot : TimeSlot.t)
    (staffId : option Z) (from_ts to_ts : Z)
    (Hunique : unique_timeslot d) (Hin : In b (bookings d))
    (Hst : Booking.status b = cancelled)
    (Hslot : In slot (timeslots d))
    (Hid : TimeSlot.id slot = Booking.timeslot_id b)
    (Hopen : TimeSlot.is_blocked slot = false)
    (Hstaff : match staffId with
              | Some i => i = 0 \/ TimeSlot.staff_id slot = i
              | None => True
              end)
    (Hwindow : from_ts <= TimeSlot.start_ts slot <= to_ts) :
  (exists slots,
      value (getAvailableSlots None d staffId from_ts to_ts) = Returned slots
      /\ In slot slots)
  /\ (forall uuid bookingData,
        timeslotId bookingData = TimeSlot.id slot ->
        value (createBooking FetchRejected None uuid d bookingData)
        = Thrown (ApiError.new slot_taken_message)
        /\ bookings (final (createBooking FetchRejected None uuid d bookingData))
           = bookings d).
Proof.
  split.
  - eexists. split; [reflexivity |].
    apply filter_In. split.
    + apply filter_In. split; [exact Hslot |].
      rewrite Hopen. simpl negb.
      assert (Hs : match staffId with
                   | Some i => if i =? 0 then true else TimeSlot.staff_id slot =? i
                   | None => true
                   end = true).
      { destruct staffId as [i |]; [| reflexivity].
        destruct (i =? 0) eqn:Hi; [reflexivity |].
        apply Z.eqb_neq in Hi. apply Z.eqb_eq. tauto. }
      rewrite Hs. simpl. apply andb_true_iff. split; apply Z.leb_le; lia.
    + apply not_booked_iff. intros y Hy.
      unfold embedded_bookings in Hy. apply filter_In in Hy. destruct Hy as [Hy Hts].
      apply Z.eqb_eq in Hts.
      assert (Hyb : y = b).
      { assert (Hty : Booking.timeslot_id y = Booking.timeslot_id b) by congruence.
        clear - Hunique Hy Hin Hty. unfold unique_timeslot in Hunique.
        induction (bookings d) as [| a l IH]; [destruct Hy |].
        simpl in Hunique. inversion Hunique as [| ? ? Hnotin Hnd]; subst.
        destruct Hy as [-> | Hy], Hin as [-> | Hin].
        - reflexivity.
        - exfalso. apply Hnotin. rewrite Hty. now apply in_map.
        - exfalso. apply Hnotin. rewrite <- Hty. now apply in_map.
        - now apply IH. }
      now subst y.
  - intros uuid bookingData Hts.
    destruct (cancelled_booking_still_blocks d b uuid bookingData Hin) as [_ H];
      [congruence | exact H].
Qed.

Lemma cancelled_slot_is_offered_but_taken_witness :
  (exists slots,
      value (getAvailableSlots None Example.after_shop_cancel (Some 1) 6000 7000)
      = Returned slots
      /\ In (TimeSlot.mk 1 1 6300 6330 false) slots)
  /\ value (createBooking FetchRejected None Example.bob_token
              Example.after_shop_cancel Example.bob)
     = Thrown (ApiError.new slot_taken_message).
Proof.
  destruct (cancelled_slot_is_offered_but_taken Example.after_shop_cancel
              (Booking.set_status cancelled Example.alice_booking)
              (TimeSlot.mk 1 1 6300 6330 false) (Some 1) 6000 7000)
    as [Hoffered Htaken].
  - unfold unique_timeslot. simpl. repeat constructor. simpl. tauto.
  - simpl. now left.
  - reflexivity.
  - simpl. now left.
  - reflexivity.
  - reflexivity.
  - now right.
  - simpl. lia.
  - split; [exact Hoffered |].
    apply (Htaken Example.bob_token Example.bob). reflexivity.
Defined.

(** ** The key gate of the admin page *)

Lemma admin_gate_step (st : AdminPage.state) (a : AdminPage.action) :
  (AdminPage.storedKey st = None \/ AdminPage.storedKey st = Some "admin123") ->
  (AdminPage.isAuthenticated st = true -> AdminPage.storedKey st = Some "admin123") ->
  (AdminPage.storedKey (AdminPage.act st a) = None
   \/ AdminPage.storedKey (AdminPage.act st a) = Some "admin123")
  /\ (AdminPage.isAuthenticated (AdminPage.act st a) = true ->
      AdminPage.storedKey (AdminPage.act st a) = Some "admin123").
Proof.
  intros Hstored Hauth. destruct a as [key | | |]; simpl.
  - auto.
  - unfold AdminPage.handleKeySubmit.
    destruct (String.eqb (AdminPage.adminKey st) "admin123") eqn:Hk; simpl.
    + apply String.eqb_eq in Hk. rewrite Hk. auto.
    + auto.
  - split; [auto | discriminate].
  - unfold AdminPage.mount. destruct Hstored as [-> | ->]; simpl.
    + split; [auto | discriminate].
    + auto.
Qed.

(** X17. The admin page, opened with no stored key: whatever is typed,
    submitted, logged out or reloaded, the page is in its authenticated
    state only if the key [admin123] was submitted, and then that key is
    what [localStorage] holds. A successful submit survives a reload, a
    logout does not. The stored key itself is not compared on mount: any
    non-empty stored text opens the page. *)
Theorem admin_gate :
  (forall actions,
      let st := fold_left AdminPage.act actions (AdminPage.mount None) in
      AdminPage.isAuthenticated st = true ->
      AdminPage.storedKey st = Some "admin123")
  /\ (forall st,
        AdminPage.isAuthenticated
          (AdminPage.act (AdminPage.handleKeySubmit
                            (AdminPage.setAdminKey "admin123" st))
                         AdminPage.Reload) = true)
  /\ (forall st key,
        key <> "admin123" ->
        AdminPage.isAuthenticated
          (AdminPage.handleKeySubmit (AdminPage.setAdminKey key st))
        = AdminPage.isAuthenticated st
        /\ AdminPage.storedKey
             (AdminPage.handleKeySubmit (AdminPage.setAdminKey key st))
           = AdminPage.storedKey st)
  /\ (forall st,
        AdminPage.isAuthenticated
          (AdminPage.act (AdminPage.handleLogout st) AdminPage.Reload) = false)
  /\ (forall s, s <> "" -> AdminPage.isAuthenticated (AdminPage.mount (Some s)) = true).
Proof.
  split; [| split; [| split; [| split]]].
  - intros actions.
    assert (Hinv : forall st,
               (AdminPage.storedKey st = None \/ AdminPage.storedKey st = Some "admin123") ->
               (AdminPage.isAuthenticated st = true ->
                AdminPage.storedKey st = Some "admin123") ->
               AdminPage.isAuthenticated (fold_left AdminPage.act actions st) = true ->
               AdminPage.storedKey (fold_left AdminPage.act actions st)
               = Some "admin123").
    { induction actions as [| a actions IH]; intros st H1 H2; simpl; [exact H2 |].
      destruct (admin_gate_step st a H1 H2) as [H1' H2']. now apply IH. }
    apply Hinv; simpl; [auto | discriminate].
  - intros st. reflexivity.
  - intros st key Hkey. unfold AdminPage.handleKeySubmit. simpl.
    apply String.eqb_neq in Hkey. rewrite Hkey. simpl. auto.
  - intros st. reflexivity.
  - intros s Hs. unfold AdminPage.mount, AdminPage.truthy.
    apply String.eqb_neq in Hs. rewrite Hs. reflexivity.
Qed.
